(** * Ledger signers: device session, retry protocol, path parsing,
      address cache and typed-data signing

    A shallow embedding of the TypeScript sources of the repository
    (common/src/index.ts, ethers-v5/src.ts/ledger.ts, the ethers-v6 and
    Solana signers) together with the properties stated about them.

    Promises are modelled by their completion, a returned value or a
    thrown error; what lies outside the process (device, provider, clock)
    is a state that calls read and change. Strings are sequences of
    characters; the sources compare and split them at ASCII characters
    only. *)

From Stdlib Require Import ZArith String Ascii List Bool Lia.
From stdpp Require Import gmap strings list.

Local Open Scope string_scope.
Local Open Scope Z_scope.

(** ** JavaScript values shared by all modules *)

(** The messages of the [Error] objects the sources construct. *)
Inductive ErrorMessage : Type :=
| MsgPathMustStartWithM                    (* 'Path must start with m' *)
| MsgInvalidChildIndex (segment : string)  (* `Invalid child index: ${segment}` *)
| MsgNodeIndexOutOfRange                   (* 'Node index out of range' *)
| MsgTimeout                               (* "timeout" *)
| MsgTransportOpenTimeout                  (* "Timed out while waiting for transport to open." *)
| MsgNotRunningEthereumApp                 (* `Ledger device is not running Ethereum App` *)
| MsgOther (text : string).                (* anything thrown by a collaborator *)

(** A thrown value, inspected by the sources through [error?.id] and
    [error?.statusCode] only. A field that is absent reads [undefined]. *)
Record JsError : Type := mkJsError {
  id : option string;
  statusCode : option Z;
  message : ErrorMessage
}.

(** [new Error(msg)]: neither [id] nor [statusCode] is defined. *)
Definition new_Error (msg : ErrorMessage) : JsError :=
  {| id := None; statusCode := None; message := msg |}.

(** Completion of a call: a returned value or a thrown error. *)
Inductive result (T : Type) : Type :=
| Return (v : T)
| Throw (e : JsError).
Arguments Return {T} v.
Arguments Throw {T} e.

Definition bind {A B : Type} (r : result A) (k : A -> result B) : result B :=
  match r with
  | Return v => k v
  | Throw e => Throw e
  end.

Notation "x <-! r ; k" := (bind r (fun x => k))
  (at level 100, r at next level, right associativity).

(** ** The common package: common/src/index.ts

    [parseBip32Path], and [retry] with [sleep], which the signers import
    from the same package. *)

Module Common.

Definition HARDENED_OFFSET : Z := 0x80000000.

Record Bip32Path : Type := mkBip32Path {
  normalized : string;   (* Ledger-friendly path string without the root *)
  indices : list Z       (* indices with hardened offset applied *)
}.

(** [/^m/.test(path)] *)
Definition test_starts_with_m (path : string) : bool :=
  match path with
  | String "m" _ => true
  | _ => false
  end.

(** [/^m$/.test(path)]: without the multiline flag [$] is the end of input. *)
Definition test_is_m (path : string) : bool :=
  match path with
  | String "m" EmptyString => true
  | _ => false
  end.

(** [path.replace(/^m\//, '')] *)
Definition replace_leading_m_slash (path : string) : string :=
  match path with
  | String "m" (String "/" rest) => rest
  | _ => path
  end.

(** [s.split('/')]: always at least one part. *)
Fixpoint split_slash (s : string) : list string :=
  match s with
  | EmptyString => [EmptyString]
  | String c s' =>
      if Ascii.eqb c "/" then EmptyString :: split_slash s'
      else match split_slash s' with
           | part :: parts => String c part :: parts
           | [] => [String c EmptyString]
           end
  end.

(** [\d] of a regular expression without the unicode flag: [0-9]. *)
Definition is_digit (c : ascii) : bool :=
  (48 <=? N_of_ascii c)%N && (N_of_ascii c <=? 57)%N.

(** The longest prefix of digits and what follows it: the greedy [\d+]. *)
Fixpoint span_digits (s : string) : string * string :=
  match s with
  | EmptyString => (EmptyString, EmptyString)
  | String c s' =>
      if is_digit c then
        let (ds, rest) := span_digits s' in (String c ds, rest)
      else (EmptyString, s)
  end.

(** [/^(\d+)('?)$/.exec(segment)]: the two capture groups, or [None] for
    [null]. Giving back digits to the greedy group never helps, since what
    would follow is a digit, so the longest digit prefix decides. *)
Definition exec_child_index (segment : string) : option (string * string) :=
  let (m1, rest) := span_digits segment in
  match m1 with
  | EmptyString => None
  | _ =>
      match rest with
      | EmptyString => Some (m1, EmptyString)
      | String "'" EmptyString => Some (m1, "'")
      | _ => None
      end
  end.

Definition digit_value (c : ascii) : Z := Z.of_N (N_of_ascii c) - 48.

Fixpoint decimal_from (acc : Z) (s : string) : Z :=
  match s with
  | EmptyString => acc
  | String c s' => decimal_from (10 * acc + digit_value c) s'
  end.

(** [+m1] on a string of decimal digits. The value is exact up to 2^53;
    above it the nearest double is still at least 2^53, which
    [Number.isSafeInteger] rejects like the exact value. *)
Definition to_number (m1 : string) : Z := decimal_from 0 m1.

Definition MAX_SAFE_INTEGER : Z := 2 ^ 53 - 1.

Definition isSafeInteger (n : Z) : bool :=
  (- MAX_SAFE_INTEGER <=? n) && (n <=? MAX_SAFE_INTEGER).

(** The callback of [parts.map]. *)
Definition parse_segment (segment : string) : result Z :=
  match exec_child_index segment with
  | None => Throw (new_Error (MsgInvalidChildIndex segment))
  | Some (m1, m2) =>
      let idx := to_number m1 in
      if negb (isSafeInteger idx) || (HARDENED_OFFSET <=? idx) then
        Throw (new_Error MsgNodeIndexOutOfRange)
      else if String.eqb m2 "'" then Return (idx + HARDENED_OFFSET)
      else Return idx
  end.

(** [Array.prototype.map] with a callback that may throw: the parts are
    visited from the left and the first throw ends the call. *)
Fixpoint map_throwing {A B : Type} (f : A -> result B) (l : list A) : result (list B) :=
  match l with
  | [] => Return []
  | x :: l' =>
      y <-! f x ;
      ys <-! map_throwing f l' ;
      Return (y :: ys)
  end.

Definition parseBip32Path (path : string) : result Bip32Path :=
  if negb (test_starts_with_m path) then
    Throw (new_Error MsgPathMustStartWithM)
  else if test_is_m path then
    Return {| normalized := ""; indices := [] |}
  else
    let normalized := replace_leading_m_slash path in
    let parts := split_slash normalized in
    indices <-! map_throwing parse_segment parts ;
    Return {| normalized := normalized; indices := indices |}.

(** [error?.id !== "TransportLocked"] is the negation of this test. *)
Definition is_TransportLocked (error : JsError) : bool :=
  match id error with
  | Some i => String.eqb i "TransportLocked"
  | None => false
  end.

(** What one call of the function returned by [retry] did: how it completed,
    the world it left, how many times [operation] was invoked and how many
    times [sleep(100)] was awaited. *)
Record Run (World T : Type) : Type := mkRun {
  completion : result T;
  world_after : World;
  attempts : nat;
  pauses : nat
}.
Arguments mkRun {World T}.
Arguments completion {World T}.
Arguments world_after {World T}.
Arguments attempts {World T}.
Arguments pauses {World T}.

(** One more loop iteration in front of [run]: an attempt and a pause. *)
Definition after_pause {World T : Type} (run : Run World T) : Run World T :=
  {| completion := completion run;
     world_after := world_after run;
     attempts := S (attempts run);
     pauses := S (pauses run) |}.

Section Retry.
Context {World App Result : Type}.

(** [await sleep(duration)]: time passes in the world. *)
Variable sleep : Z -> World -> World.
(** [container.app], read again at every attempt. *)
Variable container_app : World -> App.
(** [errorHook?: (error: any) => void]; [None] is [undefined]. *)
Variable errorHook : option (JsError -> result unit).
Variable operation : App -> World -> result Result * World.

(** [if (errorHook !== undefined) errorHook(error)] *)
Definition run_hook (error : JsError) : result unit :=
  match errorHook with
  | Some hook => hook error
  | None => Return tt
  end.

(** The loop [for (let i = 0; i < 1200; i++)], by the number of
    iterations left, [1200 - i]. *)
Fixpoint retry_loop (remaining : nat) (w : World) : Run World Result :=
  match remaining with
  | O => mkRun (Throw (new_Error MsgTimeout)) w 0 0
  | S remaining' =>
      match operation (container_app w) w with
      | (Return res, w1) => mkRun (Return res) w1 1 0
      | (Throw error, w1) =>
          match run_hook error with
          | Throw hook_error => mkRun (Throw hook_error) w1 1 0
          | Return _ =>
              if negb (is_TransportLocked error) then mkRun (Throw error) w1 1 0
              else after_pause (retry_loop remaining' (sleep 100 w1))
          end
      end
  end.

Definition retry (w : World) : Run World Result := retry_loop 1200 w.

(** *** How an operation behaves when it is attempted again and again *)

(** One attempt, and the world in which the next attempt is made when this
    one is followed by the pause. *)
Definition attempt (w : World) : result Result * World := operation (container_app w) w.

Definition next_attempt_world (w : World) : World := sleep 100 (snd (attempt w)).

Definition world_at (i : nat) (w : World) : World := Nat.iter i next_attempt_world w.

Definition outcome_at (i : nat) (w : World) : result Result := fst (attempt (world_at i w)).

(** Attempt [i] fails with the busy sentinel. *)
Definition busy_at (i : nat) (w : World) : Prop :=
  exists e, outcome_at i w = Throw e /\ is_TransportLocked e = true.

(** Attempt [i] fails with the busy sentinel and the hook lets it pass. *)
Definition retried_at (i : nat) (w : World) : Prop :=
  exists e, outcome_at i w = Throw e /\ is_TransportLocked e = true /\
            run_hook e = Return tt.

(** An operation that is busy [k] times, for any [k] below the bound, and
    then succeeds makes [retry] return its value after at least [k] pauses;
    an operation that is busy at every attempt makes it fail with the
    timeout after exactly 1200 attempts. *)
Definition absorbs_busy : Prop :=
  forall w : World,
    (forall (k : nat) (res : Result),
        (k < 1200)%nat ->
        (forall i, (i < k)%nat -> busy_at i w) ->
        outcome_at k w = Return res ->
        completion (retry w) = Return res /\ (k <= pauses (retry w))%nat) /\
    ((forall i, busy_at i w) ->
     completion (retry w) = Throw (new_Error MsgTimeout) /\
     attempts (retry w) = 1200%nat).

End Retry.

End Common.

(** ** The signers: ethers-v5/src.ts/ledger.ts, the ethers-v6 signer in its
      two versions, and the Solana signer *)

(** What [eth.getAddress] resolves to; only [address] is read. *)
Record Account : Type := mkAccount { address : string }.

(** What the signing calls of the device resolve to. *)
Record LedgerSignature : Type := mkLedgerSignature {
  sig_r : string;
  sig_s : string;
  sig_v : Z
}.

(** [str.substring(2)] *)
Definition substring2 (str : string) : string :=
  match str with
  | String _ (String _ rest) => rest
  | _ => EmptyString
  end.

(** [error?.statusCode === code] *)
Definition statusCode_is (error : JsError) (code : Z) : bool :=
  match statusCode error with
  | Some c => c =? code
  | None => false
  end.

Section Signers.
(** The device with everything else outside the process ([Env]) and the
    data of the ethers library, which is not part of the repository. *)
Context {Env Domain Types Value Payload : Type}.

(** Calls that leave the signer, in the order they are made. *)
Inductive Event : Type :=
| GetAddressCall (path : string)
| SignEIP712MessageCall (path : string) (payload : Payload)
| SignEIP712HashedMessageCall (path : string) (domainHash valueHash : string)
| SleepCall (ms : Z)
| ResolveNamesCall (domain : Domain) (types : Types) (value : Value)
| GetPayloadCall (domain : Domain) (types : Types) (value : Value)
| HashDomainCall (domain : Domain)
| HashCall (types : Types) (value : Value).

Record World : Type := mkWorld {
  env : Env;
  trace : list Event
}.

(** The methods of [Eth] from @ledgerhq/hw-app-eth that the signers call. *)
Record Eth : Type := mkEth {
  Eth_getAddress : string -> Env -> result Account * Env;
  Eth_signEIP712Message : string -> Payload -> Env -> result LedgerSignature * Env;
  Eth_signEIP712HashedMessage :
    string -> string -> string -> Env -> result LedgerSignature * Env
}.

(** [SolanaApp] from @ledgerhq/hw-app-solana; the address is a [Buffer]. *)
Record SolanaApp : Type := mkSolanaApp {
  Sol_getAddress : string -> Env -> result (list Z) * Env
}.

(** Time passing outside the process during [sleep]. *)
Variable elapse : Z -> Env -> Env.

(** ethers: [TypedDataEncoder.resolveNames] with the signer's provider,
    [TypedDataEncoder.getPayload], [TypedDataEncoder.hashDomain],
    [TypedDataEncoder.from(types).hash(value)],
    [Signature.from(sig).serialized] and [getAddress]. *)
Variable resolveNames : Domain -> Types -> Value -> Env -> result (Domain * Value) * Env.
Variable getPayload : Domain -> Types -> Value -> result Payload.
Variable hashDomain : Domain -> result string.
Variable hash : Types -> Value -> result string.
Variable serialized : LedgerSignature -> result string.
Variable utils_getAddress : string -> result string.

(** Computations of the signer: they may throw and they change the world. *)
Definition M (T : Type) : Type := World -> result T * World.

Definition ret {T : Type} (x : T) : M T := fun w => (Return x, w).
Definition throw {T : Type} (e : JsError) : M T := fun w => (Throw e, w).
Definition mbind {A B : Type} (m : M A) (k : A -> M B) : M B :=
  fun w =>
    match m w with
    | (Return x, w1) => k x w1
    | (Throw e, w1) => (Throw e, w1)
    end.
Definition try_catch {T : Type} (m : M T) (handler : JsError -> M T) : M T :=
  fun w =>
    match m w with
    | (Return x, w1) => (Return x, w1)
    | (Throw e, w1) => handler e w1
    end.

Definition record (ev : Event) (w : World) : World :=
  {| env := env w; trace := trace w ++ [ev] |}.

(** A call that reaches the outside. *)
Definition external {T : Type} (ev : Event) (f : Env -> result T * Env) : M T :=
  fun w =>
    let (res, env1) := f (env w) in
    (res, {| env := env1; trace := trace w ++ [ev] |}).

(** A call into the ethers library that only computes. *)
Definition library {T : Type} (ev : Event) (res : result T) : M T :=
  fun w => (res, record ev w).

Definition sleep (ms : Z) (w : World) : World :=
  {| env := elapse ms (env w); trace := trace w ++ [SleepCall ms] |}.

Notation "x <~ m ;; k" := (mbind m (fun x => k))
  (at level 100, m at next level, right associativity).

(** [sig.r = "0x" + sig.r; sig.s = "0x" + sig.s] *)
Definition normalize_rs (sig : LedgerSignature) : LedgerSignature :=
  {| sig_r := "0x" ++ sig_r sig; sig_s := "0x" ++ sig_s sig; sig_v := sig_v sig |}.

(** A signer instance; the provider is part of [Env]. *)
Record LedgerSigner : Type := mkLedgerSigner {
  ethApp : Eth;
  path : string
}.

(** *** The current ethers signers (ethers-v5 and ethers-v6) *)

(** The static [LedgerSigner.app] once [create] has assigned it. *)
Variable LedgerSigner_app : Eth.

(** The hook passed to [retry] by the ethers signers. *)
Definition errorHook (error : JsError) : result unit :=
  if statusCode_is error 27404 then Throw (new_Error MsgNotRunningEthereumApp)
  else Return tt.

(** [LedgerSigner.retry = retry(this, hook)] *)
Definition LedgerSigner_retry {T : Type} (operation : Eth -> M T) : M T :=
  fun w =>
    let run := Common.retry sleep (fun _ => LedgerSigner_app) (Some errorHook) operation w in
    (Common.completion run, Common.world_after run).

(** The module-level [addressCache] is threaded next to the world. *)
Definition getAddress (this : LedgerSigner) (addressCache : gmap string string)
  : World -> result string * gmap string string * World :=
  fun w =>
    match addressCache !! path this with
    | Some cachedAddress => (Return cachedAddress, addressCache, w)
    | None =>
        match LedgerSigner_retry
                (fun eth => external (GetAddressCall (path this))
                              (Eth_getAddress eth (path this))) w with
        | (Throw e, w1) => (Throw e, addressCache, w1)
        | (Return account, w1) =>
            match utils_getAddress (address account) with
            | Throw e => (Throw e, addressCache, w1)
            | Return addr => (Return addr, <[path this := addr]> addressCache, w1)
            end
        end
    end.

(** [signTypedData] is the same text in both versions of the ethers-v6
    signer except for the executor, [LedgerSigner.retry] or [this._retry],
    which is taken as [exec] here. *)
Definition signTypedData_with
    (exec : forall T : Type, (Eth -> M T) -> M T)
    (this : LedgerSigner) (domain : Domain) (types : Types) (value : Value)
  : M string :=
  populated <~ external (ResolveNamesCall domain types value)
                 (resolveNames domain types value) ;;
  payload <~ library (GetPayloadCall (fst populated) types (snd populated))
               (getPayload (fst populated) types (snd populated)) ;;
  sig <~ try_catch
           (exec _ (fun eth => external (SignEIP712MessageCall (path this) payload)
                                 (Eth_signEIP712Message eth (path this) payload)))
           (fun error =>
              if negb (statusCode_is error 27904) then throw error
              else
                domainHash <~ library (HashDomainCall domain) (hashDomain domain) ;;
                valueHash <~ library (HashCall types value) (hash types value) ;;
                exec _ (fun eth =>
                  external (SignEIP712HashedMessageCall (path this)
                              (substring2 domainHash) (substring2 valueHash))
                    (Eth_signEIP712HashedMessage eth (path this)
                       (substring2 domainHash) (substring2 valueHash)))) ;;
  fun w => (serialized (normalize_rs sig), w).

Definition signTypedData : LedgerSigner -> Domain -> Types -> Value -> M string :=
  signTypedData_with (@LedgerSigner_retry).

(** *** The earlier ethers-v6 signer, without the common package *)

(** [this._retry]: the loop of [retry] on [this.ethApp], with no hook. *)
Fixpoint _retry_loop {T : Type} (this : LedgerSigner) (operation : Eth -> M T)
    (remaining : nat) (w : World) : Common.Run World T :=
  match remaining with
  | O => Common.mkRun (Throw (new_Error MsgTimeout)) w 0 0
  | S remaining' =>
      match operation (ethApp this) w with
      | (Return res, w1) => Common.mkRun (Return res) w1 1 0
      | (Throw error, w1) =>
          if negb (Common.is_TransportLocked error) then Common.mkRun (Throw error) w1 1 0
          else Common.after_pause (_retry_loop this operation remaining' (sleep 100 w1))
      end
  end.

Definition _retry {T : Type} (this : LedgerSigner) (operation : Eth -> M T) : M T :=
  fun w =>
    let run := _retry_loop this operation 1200 w in
    (Common.completion run, Common.world_after run).

Definition signTypedData_legacy (this : LedgerSigner)
  : Domain -> Types -> Value -> M string :=
  signTypedData_with (fun T => @_retry T this) this.

(** *** The Solana signer *)

Variable SolanaLedgerSigner_app : SolanaApp.

(** [SolanaLedgerSigner.retry = retry(this)] *)
Definition SolanaLedgerSigner_retry {T : Type} (operation : SolanaApp -> M T) : M T :=
  fun w =>
    let run := Common.retry sleep (fun _ => SolanaLedgerSigner_app) None operation w in
    (Common.completion run, Common.world_after run).

(** [Buffer.copyBytesFrom(b)]: a new buffer with the same bytes. *)
Definition copyBytesFrom (b : list Z) : list Z := b.

Definition Solana_getAddress (path : string) (addressCache : gmap string (list Z))
  : World -> result (list Z) * gmap string (list Z) * World :=
  fun w =>
    match addressCache !! path with
    | Some cachedAddress => (Return (copyBytesFrom cachedAddress), addressCache, w)
    | None =>
        match SolanaLedgerSigner_retry
                (fun sol => external (GetAddressCall path) (Sol_getAddress sol path)) w with
        | (Throw e, w1) => (Throw e, addressCache, w1)
        | (Return addr, w1) =>
            (Return (copyBytesFrom addr), <[path := addr]> addressCache, w1)
        end
    end.

(** How many times the device was asked to derive an address. *)
Definition is_GetAddressCall (ev : Event) : bool :=
  match ev with
  | GetAddressCall _ => true
  | _ => false
  end.

Definition derivations (t : list Event) : nat :=
  length (filter (fun ev => is_GetAddressCall ev = true) t).





(** What a run of [retry] on the device call [ev] adds to the trace: the
    call and the pause for every attempt that was retried, and the call
    alone for an attempt that ended the loop. *)
Definition retry_events (ev : Event) (attempts pauses : nat) : list Event :=
  concat (repeat [ev; SleepCall 100] pauses) ++ repeat ev (attempts - pauses).

(** *** What is stated of [signTypedData] *)







End Signers.

(** ** [create]: the shared device session

    [LedgerSigner.create] of ethers-v5 and ethers-v6 and
    [SolanaLedgerSigner.create] are the same text up to the names of the
    flag ([createEthApp], [createSolApp]) and of the application class.
    Calls of [create] interleave at their [await]s only, so the process is
    a transition system whose steps are the stretches between them. *)

Module Session.

(** The application object built on the transport that the [n]-th call of
    [Transport.open] resolved to. *)
Definition Handle : Type := nat.

(** [new LedgerSigner(provider, this.app, path)]; [None] is [undefined]. *)
Record Signer : Type := mkSigner {
  signer_app : option Handle;
  signer_path : string
}.

(** Which [return] of [create] a caller came through. *)
Inductive Branch : Type :=
| Initialized   (* opened the transport itself *)
| Polled        (* left the waiting loop *)
| Reused.       (* found the handle on entry *)

(** Where one call of [create] stands. *)
Inductive Caller : Type :=
| NotCalled (path : string)
| AwaitOpen (path : string) (transport : nat)   (* await Transport.open(undefined) *)
| AwaitConfig (path : string) (h : Handle)      (* await this.app.getAppConfiguration() *)
| AwaitSleep (path : string) (i : nat)          (* await sleep(100) with loop counter i *)
| Resolved (via : Branch) (signer : Signer)
| Rejected (e : JsError).

Record Process : Type := mkProcess {
  createEthApp : bool;          (* let createEthApp = false *)
  app : option Handle;          (* public static app: Eth *)
  opened : nat;                 (* calls of Transport.open so far *)
  checked : list Handle;        (* handles whose getAppConfiguration resolved *)
  callers : list Caller
}.

Definition init (paths : list string) : Process :=
  {| createEthApp := false; app := None; opened := 0; checked := [];
     callers := NotCalled <$> paths |}.

Definition set_caller (c : nat) (k : Caller) (p : Process) : Process :=
  {| createEthApp := createEthApp p; app := app p; opened := opened p;
     checked := checked p; callers := <[c := k]> (callers p) |}.

(** What makes the process move: a call of [create], or the settling of
    the promise a caller awaits ([None]: resolved, [Some e]: rejected). *)
Inductive Label : Type :=
| Call (c : nat)
| OpenSettled (c : nat) (outcome : option JsError)
| ConfigSettled (c : nat) (outcome : option JsError)
| Timer (c : nat).

Definition step (l : Label) (p : Process) : option Process :=
  match l with
  | Call c =>
      match callers p !! c with
      | Some (NotCalled path) =>
          match Common.parseBip32Path path with
          | Throw e => Some (set_caller c (Rejected e) p)
          | Return parsed =>
              let path := Common.normalized parsed in
              if negb (createEthApp p) then
                Some {| createEthApp := true; app := app p; opened := S (opened p);
                        checked := checked p;
                        callers := <[c := AwaitOpen path (opened p)]> (callers p) |}
              else
                match app p with
                | None => Some (set_caller c (AwaitSleep path 0) p)
                | Some _ => Some (set_caller c (Resolved Reused (mkSigner (app p) path)) p)
                end
          end
      | _ => None
      end
  | OpenSettled c outcome =>
      match callers p !! c with
      | Some (AwaitOpen path transport) =>
          match outcome with
          | Some e => Some (set_caller c (Rejected e) p)
          | None =>
              Some {| createEthApp := createEthApp p; app := Some transport;
                      opened := opened p; checked := checked p;
                      callers := <[c := AwaitConfig path transport]> (callers p) |}
          end
      | _ => None
      end
  | ConfigSettled c outcome =>
      match callers p !! c with
      | Some (AwaitConfig path h) =>
          match outcome with
          | Some e => Some (set_caller c (Rejected e) p)
          | None =>
              Some {| createEthApp := createEthApp p; app := app p;
                      opened := opened p; checked := h :: checked p;
                      callers := <[c := Resolved Initialized (mkSigner (app p) path)]>
                                   (callers p) |}
          end
      | _ => None
      end
  | Timer c =>
      match callers p !! c with
      | Some (AwaitSleep path i) =>
          match app p with
          | Some _ => Some (set_caller c (Resolved Polled (mkSigner (app p) path)) p)
          | None =>
              if (i =? 1199)%nat then
                Some (set_caller c (Rejected (new_Error MsgTransportOpenTimeout)) p)
              else if (S i <? 1200)%nat then
                Some (set_caller c (AwaitSleep path (S i)) p)
              else
                Some (set_caller c (Resolved Polled (mkSigner (app p) path)) p)
          end
      | _ => None
      end
  end.

(** A schedule, step by step; [None] when a label is not enabled. *)
Fixpoint run (schedule : list Label) (p : Process) : option Process :=
  match schedule with
  | [] => Some p
  | l :: schedule' =>
      match step l p with
      | Some p' => run schedule' p'
      | None => None
      end
  end.

(** The label belongs to caller [c]. *)
Definition label_of (l : Label) : nat :=
  match l with
  | Call c | OpenSettled c _ | ConfigSettled c _ | Timer c => c
  end.

Definition is_Timer_of (c : nat) (l : Label) : bool :=
  match l with
  | Timer c' => (c' =? c)%nat
  | _ => false
  end.

(** How many times the [sleep(100)] of caller [c] ran out in a schedule. *)
Definition wakes (c : nat) (schedule : list Label) : nat :=
  length (List.filter (is_Timer_of c) schedule).

(** The caller has entered [create]. *)
Definition has_run (k : Caller) : bool :=
  match k with
  | NotCalled _ => false
  | _ => true
  end.

(** The caller is the one setting the session up. *)
Definition initializing (k : Caller) : bool :=
  match k with
  | AwaitOpen _ _ | AwaitConfig _ _ => true
  | _ => false
  end.

(** What holds of every process that [create] calls with the arguments
    [paths] can reach. *)
Record Inv (paths : list string) (p : Process) : Prop := mkInv {
  inv_not_called : forall c path,
    callers p !! c = Some (NotCalled path) -> paths !! c = Some path;
  inv_idle : forall c k,
    createEthApp p = false -> callers p !! c = Some k ->
    (exists path, k = NotCalled path) \/
    (exists path e, paths !! c = Some path /\
                    Common.parseBip32Path path = Throw e /\ k = Rejected e);
  inv_unopened :
    createEthApp p = false -> app p = None /\ opened p = 0%nat;
  inv_opened :
    createEthApp p = true ->
    opened p = 1%nat /\
    exists c path parsed k,
      paths !! c = Some path /\ Common.parseBip32Path path = Return parsed /\
      callers p !! c = Some k /\ has_run k = true;
  inv_single : forall c1 c2 k1 k2,
    callers p !! c1 = Some k1 -> callers p !! c2 = Some k2 ->
    initializing k1 = true -> initializing k2 = true -> c1 = c2;
  inv_await_open : forall c path t,
    callers p !! c = Some (AwaitOpen path t) -> app p = None /\ checked p = [];
  inv_await_config : forall c path h,
    callers p !! c = Some (AwaitConfig path h) -> app p = Some h /\ checked p = [];
  inv_checked : forall h, In h (checked p) -> app p = Some h;
  inv_resolved : forall c via signer,
    callers p !! c = Some (Resolved via signer) ->
    exists h, signer_app signer = Some h /\ app p = Some h /\
              (via = Initialized -> In h (checked p));
  inv_sleep : forall c path i,
    callers p !! c = Some (AwaitSleep path i) -> (i < 1200)%nat
}.

(** The first caller failed before a handle was published: the flag is
    set, there is no handle and nobody is left to publish one. *)
Definition stuck (p : Process) : Prop :=
  createEthApp p = true /\ app p = None /\
  forall c k, callers p !! c = Some k -> initializing k = false.

(** The loop counter of a caller that polls stays below the bound. *)
Definition sleeps_bounded (p : Process) : Prop :=
  forall c path i, callers p !! c = Some (AwaitSleep path i) -> (i < 1200)%nat.

(** Where a caller that polls stands after [n] of its pauses ran out,
    starting in the pause with loop counter [i]. *)
Definition polling (path : string) (i n : nat) (after : option Caller) : Prop :=
  ((i + n < 1200)%nat /\ after = Some (AwaitSleep path (i + n))) \/
  ((i + n = 1200)%nat /\ after = Some (Rejected (new_Error MsgTransportOpenTimeout))).

(** Where a caller can be in a stuck process, [n] of its pauses later. *)
Definition stuck_progress (before after : option Caller) (n : nat) : Prop :=
  match before with
  | Some (NotCalled path) =>
      (after = before /\ n = 0%nat) \/
      (exists parsed, Common.parseBip32Path path = Return parsed /\
                      polling (Common.normalized parsed) 0 n after) \/
      (exists e, Common.parseBip32Path path = Throw e /\
                 after = Some (Rejected e) /\ n = 0%nat)
  | Some (AwaitSleep path i) => polling path i n after
  | _ => after = before /\ n = 0%nat
  end.

End Session.

(** ** The path parser as the specification words it *)

Module Reference.

Inductive PathError : Type :=
| InvalidPathFormat
| IndexOutOfRange.

(** The segment without one trailing apostrophe, and whether it had one. *)
Fixpoint strip_apostrophe (segment : string) : string * bool :=
  match segment with
  | EmptyString => (EmptyString, false)
  | String c EmptyString =>
      if Ascii.eqb c "'" then (EmptyString, true) else (segment, false)
  | String c rest =>
      let (body, hardened) := strip_apostrophe rest in (String c body, hardened)
  end.

(** The ten decimal digits in their order: a digit stands for the number
    of digits in front of it. *)
Definition decimal_digits : list ascii :=
  ["0"; "1"; "2"; "3"; "4"; "5"; "6"; "7"; "8"; "9"]%char.

Fixpoint place_from (n : Z) (c : ascii) (among : list ascii) : option Z :=
  match among with
  | [] => None
  | d :: others => if Ascii.eqb c d then Some n else place_from (n + 1) c others
  end.

Definition digit (c : ascii) : option Z := place_from 0 c decimal_digits.

Fixpoint all_digits (str : string) : bool :=
  match str with
  | EmptyString => true
  | String c rest =>
      match digit c with
      | Some _ => all_digits rest
      | None => false
      end
  end.

(** The value of a decimal numeral, most significant digit first. *)
Fixpoint decimal_value (digits : string) : Z :=
  match digits with
  | EmptyString => 0
  | String c rest =>
      match digit c with
      | Some d => d * 10 ^ Z.of_nat (String.length rest) + decimal_value rest
      | None => 0
      end
  end.

Definition parse_segment (segment : string) : Z + PathError :=
  let (digits, hardened) := strip_apostrophe segment in
  if (0 <? String.length digits)%nat && all_digits digits then
    let n := decimal_value digits in
    if (Z.abs n <=? 2 ^ 53 - 1) && (n <? 0x80000000) then
      inl (if hardened then n + 0x80000000 else n)
    else inr IndexOutOfRange
  else inr InvalidPathFormat.

(** The segments between the separators, with the segment being read. *)
Fixpoint segments_from (current : string) (rest : string) : list string :=
  match rest with
  | EmptyString => [current]
  | String c rest' =>
      if Ascii.eqb c "/" then current :: segments_from EmptyString rest'
      else segments_from (current ++ String c EmptyString) rest'
  end.

Fixpoint parse_segments (segments : list string) : list Z + PathError :=
  match segments with
  | [] => inl []
  | segment :: segments' =>
      match parse_segment segment with
      | inr e => inr e
      | inl index =>
          match parse_segments segments' with
          | inr e => inr e
          | inl rest => inl (index :: rest)
          end
      end
  end.

Definition parse (path : string) : Common.Bip32Path + PathError :=
  if negb (String.prefix "m" path) then inr InvalidPathFormat
  else if String.eqb path "m" then inl (Common.mkBip32Path "" [])
  else
    let remainder :=
      if String.prefix "m/" path then String.substring 2 (String.length path - 2) path
      else path in
    match parse_segments (segments_from EmptyString remainder) with
    | inr e => inr e
    | inl indices => inl (Common.mkBip32Path remainder indices)
    end.

(** The two error messages about the shape of the path are one error of
    the specification. *)
Definition classify (res : result Common.Bip32Path) : Common.Bip32Path + PathError :=
  match res with
  | Return parsed => inl parsed
  | Throw e =>
      match message e with
      | MsgNodeIndexOutOfRange => inr IndexOutOfRange
      | _ => inr InvalidPathFormat
      end
  end.

Definition classify_index (res : result Z) : Z + PathError :=
  match res with
  | Return index => inl index
  | Throw e =>
      match message e with
      | MsgNodeIndexOutOfRange => inr IndexOutOfRange
      | _ => inr InvalidPathFormat
      end
  end.

End Reference.

(** ** Scripted collaborators

    Devices whose answers are fixed in advance; the world is the number of
    calls made so far. *)

Module Script.

(** What the transport throws while another request is in flight. *)
Definition busy_error : JsError :=
  {| id := Some "TransportLocked"; statusCode := None;
     message := MsgOther "TransportLocked" |}.

(** A busy rejection that also carries the status word of a device on
    which the application is not open. *)
Definition busy_app_closed_error : JsError :=
  {| id := Some "TransportLocked"; statusCode := Some 27404;
     message := MsgOther "TransportLocked" |}.

(** A status error of the device, for instance a rejection by the user. *)
Definition status_error (code : Z) : JsError :=
  {| id := None; statusCode := Some code; message := MsgOther "TransportStatusError" |}.

(** Fails with [error] on the first [k] calls and answers from then on. *)
Definition failing_first (k : nat) (error : JsError) (answer : Z)
  : unit -> nat -> result Z * nat :=
  fun _ calls => (if (calls <? k)%nat then Throw error else Return answer, S calls).


(** A hook that turns every error into an error of the caller. *)
Definition rewriting_hook : JsError -> result unit :=
  fun _ => Throw (new_Error (MsgOther "device error")).

Definition no_wait : Z -> nat -> nat := fun _ calls => calls.

Definition the_app : nat -> unit := fun _ => tt.

End Script.

(** A wallet that is asked for addresses and signatures; its state is the
    number of requests it has seen. *)
Module Wallet.

Definition account : Account := {| address := "0x52908400098527886e0f7030069857d2e4169ee7" |}.

Definition signature : LedgerSignature :=
  {| sig_r := "aa"; sig_s := "bb"; sig_v := 27 |}.

(** Answers the [n]-th request with [answers n]. *)
Definition scripted (on_getAddress : nat -> result Account)
    (on_sign on_sign_hashed : nat -> result LedgerSignature)
  : @Eth nat string :=
  {| Eth_getAddress := fun _ calls => (on_getAddress calls, S calls);
     Eth_signEIP712Message := fun _ _ calls => (on_sign calls, S calls);
     Eth_signEIP712HashedMessage := fun _ _ _ calls => (on_sign_hashed calls, S calls) |}.

Definition answering (acc : Account) : nat -> result Account := fun _ => Return acc.

Definition signing : nat -> result LedgerSignature := fun _ => Return signature.

(** Throws [error] on the first [k] requests and answers afterwards. *)
Definition failing_first {T : Type} (k : nat) (error : JsError) (answer : T)
  : nat -> result T :=
  fun calls => if (calls <? k)%nat then Throw error else Return answer.

Definition no_elapse : Z -> nat -> nat := fun _ calls => calls.

Definition checksum : string -> result string := fun addr => Return addr.

Definition start : @World nat string string string string :=
  {| env := 0%nat; trace := [] |}.

(** A resolver that knows one name, and hashes and payloads that keep
    their input readable. *)
Definition resolve_alice (name : string) : string :=
  if String.eqb name "alice.eth" then "0x00000000000000000000000000000000000a11ce"
  else name.

Definition resolveNames (domain types value : string) (calls : nat)
  : result (string * string) * nat :=
  (Return (resolve_alice domain, resolve_alice value), calls).

Definition getPayload (domain types value : string) : result string :=
  Return (domain ++ "|" ++ types ++ "|" ++ value).

Definition hashDomain (domain : string) : result string := Return ("0x" ++ domain).

Definition hash (types value : string) : result string :=
  Return ("0x" ++ types ++ ":" ++ value).

Definition serialized (sig : LedgerSignature) : result string :=
  Return (sig_r sig ++ sig_s sig).

Definition solana (on_getAddress : nat -> result (list Z)) : @SolanaApp nat :=
  {| Sol_getAddress := fun _ calls => (on_getAddress calls, S calls) |}.

(** The signer of the default path on a wallet. *)
Definition signer (app : @Eth nat string) : @LedgerSigner nat string :=
  {| ethApp := app; path := "44'/60'/0'/0/0" |}.

(** A wallet that answers every request. *)
Definition ready : @Eth nat string := scripted (answering account) signing signing.

(** A wallet with firmware that lacks typed-data signing: the first
    request, the direct one, fails with status 27904. *)
Definition old_firmware : @Eth nat string :=
  scripted (answering account) (failing_first 1 (Script.status_error 27904) signature) signing.

End Wallet.

(** An ethers library that tells names from addresses, as the encoder of
    ethers does: a string that begins with 0x stands for an address, any
    other string for a name. [resolveNames] puts the address in the place
    of a name the registry knows; building the payload and hashing reject a
    name where an address belongs. The domain is its verifying contract
    and the value is one field of type address. *)
Module Ens.

Definition is_address (s : string) : bool := String.prefix "0x" s.

Definition invalid_address : JsError :=
  {| id := None; statusCode := None; message := MsgOther "invalid address" |}.

Definition unconfigured_name : JsError :=
  {| id := None; statusCode := None; message := MsgOther "unconfigured name" |}.

(** The registry holds one name. *)
Definition resolve (s : string) : result string :=
  if is_address s then Return s
  else if String.eqb s "alice.eth" then Return "0x00000000000000000000000000000000000a11ce"
  else Throw unconfigured_name.

Definition resolveNames (domain types value : string) (calls : nat)
  : result (string * string) * nat :=
  (d <-! resolve domain ; v <-! resolve value ; Return (d, v), calls).

Definition encode (s : string) : result string :=
  if is_address s then Return s else Throw invalid_address.

Definition getPayload (domain types value : string) : result string :=
  d <-! encode domain ; v <-! encode value ; Return (d ++ "|" ++ types ++ "|" ++ v).

Definition hashDomain (domain : string) : result string :=
  d <-! encode domain ; Return ("0x" ++ d).

Definition hash (types value : string) : result string :=
  v <-! encode value ; Return ("0x" ++ types ++ ":" ++ v).

End Ens.

(** ** Statements put to the test *)

(** Whoever [create] resolved for holds a handle whose configuration query
    has been answered. *)
Definition only_checked_handles (paths : list string) : Prop :=
  forall schedule p c via signer,
    Session.run schedule (Session.init paths) = Some p ->
    Session.callers p !! c = Some (Session.Resolved via signer) ->
    exists h, Session.signer_app signer = Some h /\ In h (Session.checked p).

(** [Transport.open] is called at most once, and once as soon as a call of
    [create] has run. *)
Definition opens_once_any_call_ran (paths : list string) : Prop :=
  forall schedule p,
    Session.run schedule (Session.init paths) = Some p ->
    (Session.opened p <= 1)%nat /\
    ((exists c k, Session.callers p !! c = Some k /\ Session.has_run k = true) ->
     Session.opened p = 1%nat).

(** Once the first caller has failed, in opening the transport or in the
    configuration query, no handle is published and no later call of
    [create] resolves. *)
Definition failure_leaves_no_handle (paths : list string) : Prop :=
  forall before p c e failure later p',
    Session.run before (Session.init paths) = Some p ->
    failure = Session.OpenSettled c (Some e) \/
    failure = Session.ConfigSettled c (Some e) ->
    Session.run (failure :: later) p = Some p' ->
    Session.app p' = None /\
    forall c' via signer,
      Session.callers p' !! c' <> Some (Session.Resolved via signer).

(** Two calls of [getAddress] in a row on a signer ask the device for the
    address at most once. *)
Definition derives_at_most_once {Env Domain Types Value Payload : Type}
    (elapse : Z -> Env -> Env) (utils_getAddress : string -> result string)
    (app : @Eth Env Payload) : Prop :=
  forall (this : LedgerSigner) (cache : gmap string string)
         (w : @World Env Domain Types Value Payload),
    let '(_, cache1, w1) := getAddress elapse utils_getAddress app this cache w in
    let '(_, _, w2) := getAddress elapse utils_getAddress app this cache1 w1 in
    (derivations (trace w2) <= derivations (trace w) + 1)%nat.

(** Parsing the normalized string of a parsed path succeeds with the same
    indices. *)
Definition reparses_normalized (path : string) : Prop :=
  forall parsed, Common.parseBip32Path path = Return parsed ->
  exists again, Common.parseBip32Path (Common.normalized parsed) = Return again /\
                Common.indices again = Common.indices parsed.

(** ** The rest of the signers *)

(** The property names of [Object.prototype]. The address cache is a plain
    object: read under such a name, when it has no property of its own by
    that name, it answers with the inherited property, a function or, for
    [__proto__], the prototype itself, and not with [undefined]. *)
Definition Object_prototype_names : list string :=
  ["constructor"; "__defineGetter__"; "__defineSetter__"; "hasOwnProperty";
   "__lookupGetter__"; "__lookupSetter__"; "isPrototypeOf"; "propertyIsEnumerable";
   "toString"; "valueOf"; "__proto__"; "toLocaleString"].

Definition inherited (key : string) : bool :=
  existsb (String.eqb key) Object_prototype_names.

(** What [Buffer.copyBytesFrom] throws when it is handed something that is
    not a typed array: a [TypeError] with the code ERR_INVALID_ARG_TYPE. *)
Definition invalid_arg_type : JsError :=
  {| id := None; statusCode := None; message := MsgOther "ERR_INVALID_ARG_TYPE" |}.

Section EarlierSigners.
Context {Env Domain Types Value Payload : Type}.

Variable elapse : Z -> Env -> Env.
Variable utils_getAddress : string -> result string.

(** [getAddress] of the earlier ethers-v6 signer. There is no cache; the
    retried call and the checksum are both inside the [try] block, and the
    test for status 27404 is made in its [catch], on whatever was thrown. *)
Definition getAddress_legacy (this : @LedgerSigner Env Payload)
  : @M Env Domain Types Value Payload string :=
  try_catch
    (mbind
       (_retry elapse this
          (fun eth => external (GetAddressCall (path this))
                        (Eth_getAddress eth (path this))))
       (fun account w => (utils_getAddress (address account), w)))
    (fun error =>
       if statusCode_is error 27404 then throw (new_Error MsgNotRunningEthereumApp)
       else throw error).

(** The earlier Solana signer keeps the application object in the
    instance. *)
Record SolanaLedgerSigner_legacy : Type := mkSolanaLedgerSigner_legacy {
  solApp : @SolanaApp Env;
  solana_path : string
}.

(** Its [this._retry]: the loop of [retry] on [this.solApp], with no hook. *)
Fixpoint Solana_retry_loop_legacy {T : Type} (this : SolanaLedgerSigner_legacy)
    (operation : @SolanaApp Env -> @M Env Domain Types Value Payload T)
    (remaining : nat) (w : @World Env Domain Types Value Payload)
  : Common.Run (@World Env Domain Types Value Payload) T :=
  match remaining with
  | O => Common.mkRun (Throw (new_Error MsgTimeout)) w 0 0
  | S remaining' =>
      match operation (solApp this) w with
      | (Return res, w1) => Common.mkRun (Return res) w1 1 0
      | (Throw error, w1) =>
          if negb (Common.is_TransportLocked error) then Common.mkRun (Throw error) w1 1 0
          else Common.after_pause
                 (Solana_retry_loop_legacy this operation remaining' (sleep elapse 100 w1))
      end
  end.

Definition Solana_retry_legacy {T : Type} (this : SolanaLedgerSigner_legacy)
    (operation : @SolanaApp Env -> @M Env Domain Types Value Payload T)
  : @M Env Domain Types Value Payload T :=
  fun w =>
    let run := Solana_retry_loop_legacy this operation 1200 w in
    (Common.completion run, Common.world_after run).

(** The path of the earlier signer is whatever string [create] was called
    with, so the read of the cache can land on [Object.prototype]. *)
Definition Solana_getAddress_legacy (this : SolanaLedgerSigner_legacy)
    (addressCache : gmap string (list Z))
  : @World Env Domain Types Value Payload ->
    result (list Z) * gmap string (list Z) * @World Env Domain Types Value Payload :=
  fun w =>
    match addressCache !! solana_path this with
    | Some cachedAddress => (Return (copyBytesFrom cachedAddress), addressCache, w)
    | None =>
        if inherited (solana_path this) then
          (* [cachedAddress] is the inherited property, which is not
             [undefined], and [Buffer.copyBytesFrom] rejects it *)
          (Throw invalid_arg_type, addressCache, w)
        else
          match Solana_retry_legacy this
                  (fun sol => external (GetAddressCall (solana_path this))
                                (Sol_getAddress sol (solana_path this))) w with
          | (Throw e, w1) => (Throw e, addressCache, w1)
          | (Return addr, w1) =>
              (Return (copyBytesFrom addr),
               <[solana_path this := addr]> addressCache, w1)
          end
    end.

(** The time spent in [sleep] along a trace, in milliseconds. *)
Definition slept (t : list (@Event Domain Types Value Payload)) : Z :=
  fold_right (fun ev total => match ev with
                              | SleepCall ms => ms + total
                              | _ => total
                              end) 0 t.

End EarlierSigners.

(** ** More about [create] *)

Module Calls.
Import Session.

(** What the state of caller [c] has kept of the argument [create] was
    called with: the argument itself before the call; the normalized
    string of its parse once the call is past the parser; for a rejected
    call, whether the argument parses. *)
Definition tracks (paths : list string) (c : nat) (k : Caller) : Prop :=
  exists argument, paths !! c = Some argument /\
    match k with
    | NotCalled path => path = argument
    | AwaitOpen path _ | AwaitConfig path _ | AwaitSleep path _ =>
        exists parsed, Common.parseBip32Path argument = Return parsed /\
                       path = Common.normalized parsed
    | Resolved _ signer =>
        exists parsed, Common.parseBip32Path argument = Return parsed /\
                       signer_path signer = Common.normalized parsed
    | Rejected e =>
        Common.parseBip32Path argument = Throw e \/
        exists parsed, Common.parseBip32Path argument = Return parsed
    end.

(** The steps a caller can still take: a call that has not started may
    poll through all 1200 pauses; the caller that opens the transport has
    two promises to await, then one. *)
Definition budget (k : Caller) : nat :=
  match k with
  | NotCalled _ => 1201
  | AwaitOpen _ _ => 2
  | AwaitConfig _ _ => 1
  | AwaitSleep _ i => 1200 - i
  | Resolved _ _ | Rejected _ => 0
  end.

(** The steps of caller [c] in a schedule. *)
Definition steps_of (c : nat) (schedule : list Label) : nat :=
  length (List.filter (fun l => (label_of l =? c)%nat) schedule).

(** The call has settled. *)
Definition settled (k : Caller) : bool :=
  match k with
  | Resolved _ _ | Rejected _ => true
  | _ => false
  end.

End Calls.

(** ** [create] of the earlier signers

    The [create] of the earlier ethers-v6 signer and of the earlier Solana
    signer is the text of the current one without its first line: the path
    is not parsed, and is handed to the constructor as it came. The
    application object is the module variable [ethApp] (or [solApp]), the
    field [app] here. *)

Module EarlierSession.
Import Session.

Definition step (l : Label) (p : Process) : option Process :=
  match l with
  | Call c =>
      match callers p !! c with
      | Some (NotCalled path) =>
          if negb (createEthApp p) then
            Some {| createEthApp := true; app := app p; opened := S (opened p);
                    checked := checked p;
                    callers := <[c := AwaitOpen path (opened p)]> (callers p) |}
          else
            match app p with
            | None => Some (set_caller c (AwaitSleep path 0) p)
            | Some _ => Some (set_caller c (Resolved Reused (mkSigner (app p) path)) p)
            end
      | _ => None
      end
  | OpenSettled c outcome =>
      match callers p !! c with
      | Some (AwaitOpen path transport) =>
          match outcome with
          | Some e => Some (set_caller c (Rejected e) p)
          | None =>
              Some {| createEthApp := createEthApp p; app := Some transport;
                      opened := opened p; checked := checked p;
                      callers := <[c := AwaitConfig path transport]> (callers p) |}
          end
      | _ => None
      end
  | ConfigSettled c outcome =>
      match callers p !! c with
      | Some (AwaitConfig path h) =>
          match outcome with
          | Some e => Some (set_caller c (Rejected e) p)
          | None =>
              Some {| createEthApp := createEthApp p; app := app p;
                      opened := opened p; checked := h :: checked p;
                      callers := <[c := Resolved Initialized (mkSigner (app p) path)]>
                                   (callers p) |}
          end
      | _ => None
      end
  | Timer c =>
      match callers p !! c with
      | Some (AwaitSleep path i) =>
          match app p with
          | Some _ => Some (set_caller c (Resolved Polled (mkSigner (app p) path)) p)
          | None =>
              if (i =? 1199)%nat then
                Some (set_caller c (Rejected (new_Error MsgTransportOpenTimeout)) p)
              else if (S i <? 1200)%nat then
                Some (set_caller c (AwaitSleep path (S i)) p)
              else
                Some (set_caller c (Resolved Polled (mkSigner (app p) path)) p)
          end
      | _ => None
      end
  end.

Fixpoint run (schedule : list Label) (p : Process) : option Process :=
  match schedule with
  | [] => Some p
  | l :: schedule' =>
      match step l p with
      | Some p' => run schedule' p'
      | None => None
      end
  end.

(** The path a call carries, before and after it settles. *)
Definition path_of (k : Caller) : option string :=
  match k with
  | NotCalled path | AwaitOpen path _ | AwaitConfig path _ | AwaitSleep path _ => Some path
  | Resolved _ signer => Some (signer_path signer)
  | Rejected _ => None
  end.

(** What holds of every process the earlier [create] can reach. *)
Definition Inv (paths : list string) (p : Process) : Prop :=
  (createEthApp p = false ->
   opened p = 0%nat /\ forall c k, callers p !! c = Some k -> has_run k = false) /\
  (createEthApp p = true ->
   opened p = 1%nat /\ exists c k, callers p !! c = Some k /\ has_run k = true) /\
  (forall c k path, callers p !! c = Some k ->
                    path_of k = Some path -> paths !! c = Some path).

End EarlierSession.

(** ** [signTransaction] of the ethers-v5 signer *)

Module EthersV5.

(** [resolutionConfig], passed to the device with every transaction. *)
Record ResolutionConfig : Type := mkResolutionConfig {
  nft : bool;
  erc20 : bool;
  externalPlugins : bool
}.

Definition resolutionConfig : ResolutionConfig :=
  {| nft := true; erc20 := true; externalPlugins := true |}.

(** What [eth.clearSignTransaction] resolves to: three hex strings. *)
Record RawSignature : Type := mkRawSignature {
  raw_s : string;
  raw_v : string;
  raw_r : string
}.

(** The signature handed to [serializeTransaction]. *)
Record SignatureLike : Type := mkSignatureLike {
  like_v : Z;
  like_r : string;
  like_s : string
}.

Section Transactions.
(** The device with the rest of the outside, the application object, and
    the data of ethers: call data, amounts ([BigNumberish]), access lists,
    what is given as a nonce, and a request before its properties are
    resolved. *)
Context {Env App Data Amount AccessList Nonce Request : Type}.

(** The request once [resolveProperties] has resolved it; [None] is
    [undefined]. *)
Record TransactionRequest : Type := mkTransactionRequest {
  tx_chainId : option Z;
  tx_data : option Data;
  tx_gasLimit : option Amount;
  tx_nonce : option Nonce;
  tx_to : option string;
  tx_value : option Amount;
  tx_type : option Z;
  tx_gasPrice : option Amount;
  tx_accessList : option AccessList;
  tx_maxFeePerGas : option Amount;
  tx_maxPriorityFeePerGas : option Amount
}.

(** [ethers.utils.UnsignedTransaction] *)
Record UnsignedTransaction : Type := mkUnsignedTransaction {
  base_chainId : option Z;
  base_data : option Data;
  base_gasLimit : option Amount;
  base_nonce : option Z;
  base_to : option string;
  base_value : option Amount;
  base_type : option Z;
  base_gasPrice : option Amount;
  base_accessList : option AccessList;
  base_maxFeePerGas : option Amount;
  base_maxPriorityFeePerGas : option Amount
}.

(** Whether a nonce is truthy, [ethers.BigNumber.from(x).toNumber()] on a
    nonce and on a hex string, [ethers.utils.resolveProperties],
    [ethers.utils.serializeTransaction] and [eth.clearSignTransaction]. *)
Variable truthy : Nonce -> bool.
Variable toNumber : Nonce -> result Z.
Variable hexToNumber : string -> result Z.
Variable resolveProperties : Request -> Env -> result TransactionRequest * Env.
Variable serializeTransaction : UnsignedTransaction -> option SignatureLike -> result string.
Variable clearSignTransaction :
  App -> string -> string -> ResolutionConfig -> Env -> result RawSignature * Env.
Variable elapse : Z -> Env -> Env.
Variable LedgerSigner_app : App.

(** [tx.type === n] *)
Definition type_is (tx : TransactionRequest) (n : Z) : bool :=
  match tx_type tx with
  | Some t => t =? n
  | None => false
  end.

(** The object literal [baseTx]. A spread of [false] adds nothing; of the
    spreads that add [accessList] at most one applies. *)
Definition baseTx (tx : TransactionRequest) : result UnsignedTransaction :=
  nonce <-! match tx_nonce tx with
            | Some n => if truthy n then (k <-! toNumber n ; Return (Some k))
                        else Return None
            | None => Return None
            end ;
  Return {| base_chainId := tx_chainId tx;
            base_data := tx_data tx;
            base_gasLimit := tx_gasLimit tx;
            base_nonce := nonce;
            base_to := tx_to tx;
            base_value := tx_value tx;
            base_type := tx_type tx;
            base_gasPrice := if type_is tx 0 then tx_gasPrice tx else None;
            base_accessList :=
              if type_is tx 2 then tx_accessList tx
              else if type_is tx 1 then tx_accessList tx
              else None;
            base_maxFeePerGas := if type_is tx 2 then tx_maxFeePerGas tx else None;
            base_maxPriorityFeePerGas :=
              if type_is tx 2 then tx_maxPriorityFeePerGas tx else None |}.

Definition signTransaction (path : string) (transaction : Request)
  : Env -> result string * Env :=
  fun env0 =>
    match resolveProperties transaction env0 with
    | (Throw e, env1) => (Throw e, env1)
    | (Return tx, env1) =>
        match baseTx tx with
        | Throw e => (Throw e, env1)
        | Return base =>
            match serializeTransaction base None with
            | Throw e => (Throw e, env1)
            | Return raw =>
                let unsignedTx := substring2 raw in
                let run :=
                  Common.retry elapse (fun _ => LedgerSigner_app) (Some errorHook)
                    (fun eth => clearSignTransaction eth path unsignedTx resolutionConfig)
                    env1 in
                match Common.completion run with
                | Throw e => (Throw e, Common.world_after run)
                | Return sig =>
                    match hexToNumber ("0x" ++ raw_v sig) with
                    | Throw e => (Throw e, Common.world_after run)
                    | Return v =>
                        (serializeTransaction base
                           (Some {| like_v := v;
                                    like_r := "0x" ++ raw_r sig;
                                    like_s := "0x" ++ raw_s sig |}),
                         Common.world_after run)
                    end
                end
            end
        end
    end.

End Transactions.

End EthersV5.

(** A wallet that signs transactions once it is no longer busy, with an
    ethers library that keeps its input readable. *)
Module Desk.
Import EthersV5.

Definition truthy (n : Z) : bool := negb (n =? 0).

Definition toNumber (n : Z) : result Z := Return n.

Definition hexToNumber (hex : string) : result Z :=
  if String.eqb hex "0x1c" then Return 28 else Return 27.

Definition resolveProperties
    (request : @TransactionRequest string Z (list string) Z) (calls : nat)
  : result (@TransactionRequest string Z (list string) Z) * nat :=
  (Return request, calls).

Definition serializeTransaction (base : @UnsignedTransaction string Z (list string))
    (sig : option SignatureLike) : result string :=
  match sig with
  | None => Return "0xf8"
  | Some like => Return ("0xf8" ++ like_r like ++ like_s like)
  end.

Definition clearSignTransaction (_ : unit) (_ _ : string) (_ : ResolutionConfig)
    (calls : nat) : result RawSignature * nat :=
  (if (calls <? 2)%nat then Throw Script.busy_error
   else Return {| raw_s := "bb"; raw_v := "1c"; raw_r := "aa" |}, S calls).

(** A legacy transfer with an explicit type. *)
Definition transfer : @TransactionRequest string Z (list string) Z :=
  {| tx_chainId := Some 1; tx_data := None; tx_gasLimit := Some 21000;
     tx_nonce := Some 7; tx_to := Some "0x52908400098527886e0f7030069857d2e4169ee7";
     tx_value := Some 1; tx_type := Some 0; tx_gasPrice := Some 20000000000;
     tx_accessList := None; tx_maxFeePerGas := None; tx_maxPriorityFeePerGas := None |}.

(** The same transfer with no type and with the nonce 0. *)
Definition untyped_first_transfer : @TransactionRequest string Z (list string) Z :=
  {| tx_chainId := Some 1; tx_data := None; tx_gasLimit := Some 21000;
     tx_nonce := Some 0; tx_to := Some "0x52908400098527886e0f7030069857d2e4169ee7";
     tx_value := Some 1; tx_type := None; tx_gasPrice := Some 20000000000;
     tx_accessList := None; tx_maxFeePerGas := None; tx_maxPriorityFeePerGas := None |}.

End Desk.

Example parse_root : Common.parseBip32Path "m" = Return (Common.mkBip32Path "" []).
Proof. reflexivity. Qed.

Example parse_default_path :
  Common.parseBip32Path "m/44'/60'/0'/0/0" =
  Return (Common.mkBip32Path "44'/60'/0'/0/0"
            [0x8000002c; 0x8000003c; 0x80000000; 0; 0]).
Proof. reflexivity. Qed.

Example parse_without_root :
  Common.parseBip32Path "44'/60'/0'/0/0" = Throw (new_Error MsgPathMustStartWithM).
Proof. reflexivity. Qed.

Example parse_hardened_offset :
  Common.parseBip32Path "m/2147483648'" = Throw (new_Error MsgNodeIndexOutOfRange).
Proof. reflexivity. Qed.

Example parse_trailing_slash :
  Common.parseBip32Path "m/" = Throw (new_Error (MsgInvalidChildIndex "")).
Proof. reflexivity. Qed.

(** * Properties *)

(** ** The path parser *)

Section PathParser.
Import Common.

Lemma test_starts_with_m_eqb c rest :
  test_starts_with_m (String c rest) = Ascii.eqb c "m".
Proof. destruct c as [[] [] [] [] [] [] [] []]; reflexivity. Qed.

Lemma test_starts_with_m_prefix path :
  test_starts_with_m path = String.prefix "m" path.
Proof.
  destruct path as [|c rest]; [reflexivity|].
  rewrite test_starts_with_m_eqb.
  change (String.prefix "m" (String c rest))
    with (if ascii_dec "m" c then String.prefix EmptyString rest else false).
  destruct (ascii_dec "m" c) as [<-|Hne].
  - destruct rest; reflexivity.
  - apply Ascii.eqb_neq. congruence.
Qed.

Lemma test_is_m_eqb path : test_is_m path = String.eqb path "m".
Proof.
  destruct path as [|c rest]; [reflexivity|].
  destruct rest as [|c' rest'].
  - destruct c as [[] [] [] [] [] [] [] []]; reflexivity.
  - destruct c as [[] [] [] [] [] [] [] []]; reflexivity.
Qed.

Lemma substring_all str : String.substring 0 (String.length str) str = str.
Proof. induction str as [|c str IH]; simpl; [reflexivity|]. now rewrite IH. Qed.

(** A path with the root marker is the marker alone, the marker and a
    separator, or the marker and something else. *)
Lemma rooted_cases c rest :
  Ascii.eqb c "m" = true ->
  (rest = EmptyString /\ replace_leading_m_slash (String c rest) = String c rest) \/
  (exists rest', rest = String "/" rest' /\
                 replace_leading_m_slash (String c rest) = rest') \/
  (exists c' rest', rest = String c' rest' /\ Ascii.eqb c' "/" = false /\
                    replace_leading_m_slash (String c rest) = String c rest).
Proof.
  intros Hc. apply Ascii.eqb_eq in Hc. subst c.
  destruct rest as [|c' rest']; [left; split; reflexivity|].
  right. destruct (Ascii.eqb c' "/") eqn:Hs.
  - left. apply Ascii.eqb_eq in Hs. subst c'. exists rest'. split; reflexivity.
  - right. exists c', rest'. repeat split; [assumption|].
    destruct c' as [[] [] [] [] [] [] [] []]; try reflexivity; discriminate Hs.
Qed.

Lemma split_slash_nonempty str : split_slash str <> [].
Proof.
  induction str as [|c str IH]; simpl; [discriminate|].
  destruct (Ascii.eqb c "/"); [discriminate|].
  destruct (split_slash str); [contradiction | discriminate].
Qed.

Lemma append_cons x (a b : string) :
  (String x a ++ b)%string = String x (a ++ b)%string.
Proof. reflexivity. Qed.

Lemma append_nil (b : string) : (EmptyString ++ b)%string = b.
Proof. reflexivity. Qed.

Lemma append_assoc_char (a : string) c (b : string) :
  ((a ++ String c EmptyString) ++ b)%string = (a ++ String c b)%string.
Proof.
  induction a as [|x a IH]; [reflexivity|].
  rewrite !append_cons. f_equal. exact IH.
Qed.

Lemma append_empty_r (a : string) : (a ++ EmptyString)%string = a.
Proof.
  induction a as [|x a IH]; [reflexivity|].
  rewrite append_cons. f_equal. exact IH.
Qed.

Lemma segments_from_split current str :
  Reference.segments_from current str =
  match split_slash str with
  | part :: parts => (current ++ part)%string :: parts
  | [] => [current]
  end.
Proof.
  revert current. induction str as [|c str IH]; intros current; simpl.
  - now rewrite append_empty_r.
  - destruct (Ascii.eqb c "/").
    + rewrite append_empty_r. rewrite IH. simpl.
      destruct (split_slash str) eqn:E; [now apply split_slash_nonempty in E|].
      reflexivity.
    + rewrite IH.
      destruct (split_slash str) eqn:E; [now apply split_slash_nonempty in E|].
      now rewrite append_assoc_char.
Qed.

Lemma segments_split str : Reference.segments_from EmptyString str = split_slash str.
Proof.
  rewrite segments_from_split.
  destruct (split_slash str) eqn:E; [now apply split_slash_nonempty in E|].
  reflexivity.
Qed.

(** The character class of the pattern is the ten digits of the
    reference, and the arithmetic on character codes gives the number each
    digit stands for. *)
Lemma is_digit_reference c :
  is_digit c = match Reference.digit c with Some _ => true | None => false end.
Proof. destruct c as [[] [] [] [] [] [] [] []]; reflexivity. Qed.

Lemma digit_value_reference c d : Reference.digit c = Some d -> digit_value c = d.
Proof.
  destruct c as [[] [] [] [] [] [] [] []]; vm_compute; intros [= <-]; reflexivity.
Qed.

Lemma all_digits_cons c rest :
  Reference.all_digits (String c rest) = is_digit c && Reference.all_digits rest.
Proof.
  cbn [Reference.all_digits]. rewrite is_digit_reference.
  destruct (Reference.digit c); reflexivity.
Qed.

Lemma decimal_value_cons c rest :
  is_digit c = true ->
  Reference.decimal_value (String c rest) =
  digit_value c * 10 ^ Z.of_nat (String.length rest) + Reference.decimal_value rest.
Proof.
  intros Hc. rewrite is_digit_reference in Hc. cbn [Reference.decimal_value].
  destruct (Reference.digit c) as [d|] eqn:Hd; [|discriminate Hc].
  now rewrite (digit_value_reference c d Hd).
Qed.

Lemma decimal_from_value acc digits :
  Reference.all_digits digits = true ->
  decimal_from acc digits =
  acc * 10 ^ Z.of_nat (String.length digits) + Reference.decimal_value digits.
Proof.
  revert acc. induction digits as [|c digits IH]; intros acc Hd; simpl String.length.
  - simpl. lia.
  - rewrite all_digits_cons in Hd. apply andb_true_iff in Hd as [Hc Hd].
    cbn [decimal_from]. rewrite (decimal_value_cons c digits Hc), (IH _ Hd).
    rewrite Nat2Z.inj_succ, Z.pow_succ_r by lia. ring.
Qed.

Lemma to_number_value digits :
  Reference.all_digits digits = true ->
  to_number digits = Reference.decimal_value digits.
Proof. intros Hd. unfold to_number. rewrite (decimal_from_value 0 digits Hd). lia. Qed.

(** *** One segment *)

Lemma span_digits_sound str digits rest :
  span_digits str = (digits, rest) ->
  str = (digits ++ rest)%string /\ Reference.all_digits digits = true.
Proof.
  revert digits rest. induction str as [|c str IH]; intros digits rest; simpl.
  - intros [= <- <-]. split; reflexivity.
  - destruct (is_digit c) eqn:Hc.
    + destruct (span_digits str) as [ds rs]. intros [= <- <-].
      destruct (IH ds rs eq_refl) as [-> Hds].
      split; [reflexivity|]. now rewrite all_digits_cons, Hc, Hds.
    + intros [= <- <-]. split; reflexivity.
Qed.

Lemma is_digit_not_apostrophe c : is_digit c = true -> Ascii.eqb c "'" = false.
Proof. destruct c as [[] [] [] [] [] [] [] []]; simpl; intros H; try reflexivity; discriminate H. Qed.

(** The greedy digit group takes exactly the digits in front of an end or
    of an apostrophe. *)
Lemma span_digits_complete digits (tail : string) :
  Reference.all_digits digits = true ->
  tail = EmptyString \/ tail = String "'" EmptyString ->
  span_digits (digits ++ tail) = (digits, tail).
Proof.
  intros Hd Ht. induction digits as [|c digits IH].
  - rewrite append_nil. destruct Ht as [-> | ->]; reflexivity.
  - rewrite all_digits_cons in Hd. apply andb_true_iff in Hd as [Hc Hd].
    rewrite append_cons. simpl. rewrite Hc, (IH Hd). reflexivity.
Qed.

Lemma strip_apostrophe_sound segment body hardened :
  Reference.strip_apostrophe segment = (body, hardened) ->
  segment = (body ++ (if hardened then String "'" EmptyString else EmptyString))%string.
Proof.
  revert body hardened. induction segment as [|c segment IH]; intros body hardened.
  - simpl. intros [= <- <-]. reflexivity.
  - destruct segment as [|c' segment'].
    + simpl. destruct (Ascii.eqb c "'") eqn:Hc; intros [= <- <-].
      * apply Ascii.eqb_eq in Hc. now subst c.
      * reflexivity.
    + change (Reference.strip_apostrophe (String c (String c' segment')))
        with (let (b, h) := Reference.strip_apostrophe (String c' segment') in
              (String c b, h)).
      destruct (Reference.strip_apostrophe (String c' segment')) as [b h] eqn:E.
      intros [= <- <-]. rewrite append_cons. f_equal. now apply IH.
Qed.

Lemma strip_apostrophe_hardened body :
  Reference.strip_apostrophe (body ++ String "'" EmptyString) = (body, true).
Proof.
  induction body as [|c body IH]; [reflexivity|].
  rewrite append_cons.
  destruct (body ++ String "'" EmptyString)%string as [|c' more] eqn:E.
  - destruct body; discriminate E.
  - change (Reference.strip_apostrophe (String c (String c' more)))
      with (let (b, h) := Reference.strip_apostrophe (String c' more) in
            (String c b, h)).
    now rewrite IH.
Qed.

Lemma strip_apostrophe_digits digits :
  Reference.all_digits digits = true ->
  Reference.strip_apostrophe digits = (digits, false).
Proof.
  induction digits as [|c digits IH]; [reflexivity|].
  rewrite all_digits_cons. intros H. apply andb_true_iff in H as [Hc Hd].
  destruct digits as [|c' more].
  - simpl. now rewrite (is_digit_not_apostrophe c Hc).
  - change (Reference.strip_apostrophe (String c (String c' more)))
      with (let (b, h) := Reference.strip_apostrophe (String c' more) in
            (String c b, h)).
    now rewrite (IH Hd).
Qed.

(** What a match of the regular expression means. *)
Lemma exec_child_index_Some segment m1 m2 :
  exec_child_index segment = Some (m1, m2) ->
  segment = (m1 ++ m2)%string /\ Reference.all_digits m1 = true /\
  m1 <> EmptyString /\ (m2 = EmptyString \/ m2 = String "'" EmptyString).
Proof.
  unfold exec_child_index.
  destruct (span_digits segment) as [ds rest] eqn:E.
  apply span_digits_sound in E as [-> Hds].
  destruct ds as [|d ds]; [discriminate|].
  destruct rest as [|q rest].
  - intros [= <- <-]. repeat split; auto; discriminate.
  - destruct rest as [|q' rest'].
    + destruct (Ascii.eqb q "'") eqn:Hq.
      * apply Ascii.eqb_eq in Hq. subst q. intros [= <- <-].
        repeat split; auto; discriminate.
      * destruct q as [[] [] [] [] [] [] [] []]; try discriminate; discriminate Hq.
    + destruct q as [[] [] [] [] [] [] [] []]; discriminate.
Qed.

Lemma exec_child_index_match digits (tail : string) :
  Reference.all_digits digits = true -> digits <> EmptyString ->
  tail = EmptyString \/ tail = String "'" EmptyString ->
  exec_child_index (digits ++ tail) = Some (digits, tail).
Proof.
  intros Hd Hne Ht. unfold exec_child_index.
  rewrite (span_digits_complete digits tail Hd Ht).
  destruct digits; [contradiction|].
  destruct Ht as [-> | ->]; reflexivity.
Qed.

Lemma range_check_agrees n :
  negb (isSafeInteger n) || (HARDENED_OFFSET <=? n) =
  negb ((Z.abs n <=? 2 ^ 53 - 1) && (n <? 0x80000000)).
Proof.
  unfold isSafeInteger, MAX_SAFE_INTEGER, HARDENED_OFFSET.
  destruct (Z.leb_spec (- (2 ^ 53 - 1)) n), (Z.leb_spec n (2 ^ 53 - 1)),
    (Z.leb_spec 0x80000000 n), (Z.leb_spec (Z.abs n) (2 ^ 53 - 1)),
    (Z.ltb_spec n 0x80000000); simpl; try reflexivity; lia.
Qed.

Lemma parse_segment_agrees segment :
  Reference.classify_index (parse_segment segment) = Reference.parse_segment segment.
Proof.
  unfold Reference.parse_segment.
  destruct (Reference.strip_apostrophe segment) as [body hardened] eqn:Hstrip.
  pose proof (strip_apostrophe_sound _ _ _ Hstrip) as Hseg.
  destruct ((0 <? String.length body)%nat && Reference.all_digits body) eqn:Hshape.
  - apply andb_true_iff in Hshape as [Hlen Hd].
    assert (Hne : body <> EmptyString) by (destruct body; [discriminate Hlen | discriminate]).
    unfold parse_segment. rewrite Hseg.
    rewrite (exec_child_index_match body _ Hd Hne)
      by (destruct hardened; [right | left]; reflexivity).
    rewrite range_check_agrees, (to_number_value body Hd).
    destruct ((Z.abs (Reference.decimal_value body) <=? 2 ^ 53 - 1) &&
              (Reference.decimal_value body <? 0x80000000)); simpl; [|reflexivity].
    destruct hardened; reflexivity.
  - unfold parse_segment.
    destruct (exec_child_index segment) as [[m1 m2]|] eqn:Hexec; [|reflexivity].
    exfalso. apply exec_child_index_Some in Hexec as (-> & Hd & Hne & Ht).
    assert (body = m1) as ->.
    { destruct Ht as [-> | ->].
      - rewrite append_empty_r, (strip_apostrophe_digits m1 Hd) in Hstrip. congruence.
      - rewrite strip_apostrophe_hardened in Hstrip. congruence. }
    rewrite Hd, andb_true_r in Hshape.
    destruct m1; [contradiction | discriminate Hshape].
Qed.

(** *** The whole path *)

Lemma map_throwing_agrees segments :
  match map_throwing parse_segment segments with
  | Return indices => Reference.parse_segments segments = inl indices
  | Throw e =>
      Reference.parse_segments segments =
      inr (match message e with
           | MsgNodeIndexOutOfRange => Reference.IndexOutOfRange
           | _ => Reference.InvalidPathFormat
           end)
  end.
Proof.
  induction segments as [|segment segments IH]; [reflexivity|].
  cbn [map_throwing Reference.parse_segments].
  rewrite <- (parse_segment_agrees segment).
  destruct (parse_segment segment) as [index|e]; cbn [bind Reference.classify_index].
  - destruct (map_throwing parse_segment segments) as [rest|e]; cbn [bind].
    + now rewrite IH.
    + now rewrite IH.
  - destruct (message e); reflexivity.
Qed.

Lemma prefix_root_slash c rest :
  Ascii.eqb c "m" = true ->
  (if String.prefix "m/" (String c rest)
   then String.substring 2 (String.length (String c rest) - 2) (String c rest)
   else String c rest) = replace_leading_m_slash (String c rest).
Proof.
  intros Hc. destruct (rooted_cases c rest Hc)
    as [[-> ->] | [(rest' & -> & ->) | (c' & rest' & -> & Hs & ->)]];
    apply Ascii.eqb_eq in Hc; subst c.
  - reflexivity.
  - replace (String.prefix "m/" (String "m" (String "/" rest'))) with true
      by (destruct rest'; reflexivity).
    change (String.length (String "m" (String "/" rest')) - 2)%nat
      with (String.length rest' - 0)%nat.
    rewrite Nat.sub_0_r.
    change (String.substring 2 (String.length rest') (String "m" (String "/" rest')))
      with (String.substring 0 (String.length rest') rest').
    apply substring_all.
  - change (String.prefix "m/" (String "m" (String c' rest')))
      with (if ascii_dec "/" c' then String.prefix EmptyString rest' else false).
    destruct (ascii_dec "/" c') as [<-|Hne]; [discriminate Hs | reflexivity].
Qed.

End PathParser.

(** C7 — [parseBip32Path] computes what the reference definition of the
    specification computes: the error for a path without the root marker,
    the empty path for the marker alone, and otherwise the leading marker
    and separator stripped, the rest split at the separators, each segment
    a non-empty decimal numeral with at most one apostrophe behind it (else
    the format error), its value a safe integer below 0x80000000 (else the
    range error), 0x80000000 added for an apostrophe, and the stripped
    input text as the normalized string. *)
Theorem parseBip32Path_refines_reference (path : string) :
  Reference.classify (Common.parseBip32Path path) = Reference.parse path.
Proof.
  unfold Common.parseBip32Path, Reference.parse.
  rewrite test_starts_with_m_prefix, test_is_m_eqb.
  destruct (String.prefix "m" path) eqn:Hroot; [|reflexivity].
  cbn [negb]. destruct (String.eqb path "m") eqn:Hm; [reflexivity|].
  assert (Hrem : (if String.prefix "m/" path
                  then String.substring 2 (String.length path - 2) path
                  else path) = Common.replace_leading_m_slash path).
  { destruct path as [|c rest]; [discriminate Hroot|].
    apply prefix_root_slash.
    rewrite <- (test_starts_with_m_eqb c rest), test_starts_with_m_prefix. exact Hroot. }
  rewrite Hrem, segments_split.
  pose proof (map_throwing_agrees
                (Common.split_slash (Common.replace_leading_m_slash path))) as H.
  destruct (Common.map_throwing Common.parse_segment
              (Common.split_slash (Common.replace_leading_m_slash path)))
    as [indices|e]; cbn [bind Reference.classify]; rewrite H.
  - reflexivity.
  - destruct (message e); reflexivity.
Qed.

Lemma parseBip32Path_refines_reference_witness :
  Reference.classify (Common.parseBip32Path "m") = inl (Common.mkBip32Path "" []) /\
  Reference.classify (Common.parseBip32Path "m/44'/60'/0'/0/1") =
    inl (Common.mkBip32Path "44'/60'/0'/0/1"
           [0x8000002c; 0x8000003c; 0x80000000; 0; 1]) /\
  Reference.classify (Common.parseBip32Path "m/2147483647'/2147483647") =
    inl (Common.mkBip32Path "2147483647'/2147483647" [0xffffffff; 0x7fffffff]) /\
  Reference.classify (Common.parseBip32Path "m/2147483648") =
    inr Reference.IndexOutOfRange /\
  Reference.classify (Common.parseBip32Path "m/0/9007199254740993'") =
    inr Reference.IndexOutOfRange /\
  Reference.classify (Common.parseBip32Path "m/44''") = inr Reference.InvalidPathFormat /\
  Reference.classify (Common.parseBip32Path "m/44'/") = inr Reference.InvalidPathFormat /\
  Reference.classify (Common.parseBip32Path "m/4a") = inr Reference.InvalidPathFormat /\
  Reference.classify (Common.parseBip32Path "44'/60'") = inr Reference.InvalidPathFormat.
Proof.
  rewrite !parseBip32Path_refines_reference. vm_compute. repeat split.
Defined.

Lemma split_slash_first c str :
  Ascii.eqb c "/" = false ->
  exists part parts, Common.split_slash (String c str) = String c part :: parts.
Proof.
  intros Hc. simpl. rewrite Hc.
  destruct (Common.split_slash str) as [|part parts]; eauto.
Qed.

Lemma parse_segment_root_marker part :
  Common.parse_segment (String "m" part) =
  Throw (new_Error (MsgInvalidChildIndex (String "m" part))).
Proof. reflexivity. Qed.

(** A path that parses is the root marker alone or the marker, a separator
    and the normalized string, which never starts with the marker. *)
Lemma parseBip32Path_Return_shape path parsed :
  Common.parseBip32Path path = Return parsed ->
  (path = "m" /\ parsed = Common.mkBip32Path "" []) \/
  (path = String "m" (String "/" (Common.normalized parsed)) /\
   Common.test_starts_with_m (Common.normalized parsed) = false).
Proof.
  unfold Common.parseBip32Path.
  destruct (Common.test_starts_with_m path) eqn:Hroot; [|discriminate].
  cbn [negb].
  destruct path as [|c rest]; [discriminate Hroot|].
  rewrite test_starts_with_m_eqb in Hroot.
  destruct (rooted_cases c rest Hroot)
    as [[-> _] | [(rest' & -> & Hrep) | (c' & rest' & -> & Hs & Hrep)]];
    apply Ascii.eqb_eq in Hroot; subst c.
  - intros [= <-]. left. split; reflexivity.
  - change (Common.test_is_m (String "m" (String "/" rest'))) with false.
    cbv iota. rewrite Hrep.
    destruct (Common.map_throwing Common.parse_segment (Common.split_slash rest'))
      as [indices|e] eqn:Hmap; [|discriminate].
    intros [= <-]. right. split; [reflexivity|]. cbn [Common.normalized].
    destruct rest' as [|d more]; [reflexivity|].
    rewrite test_starts_with_m_eqb.
    destruct (Ascii.eqb d "m") eqn:Hd; [|reflexivity].
    apply Ascii.eqb_eq in Hd. subst d.
    destruct (split_slash_first "m" more eq_refl) as (part & parts & Hsplit).
    rewrite Hsplit in Hmap. cbn [Common.map_throwing] in Hmap.
    rewrite parse_segment_root_marker in Hmap. discriminate Hmap.
  - change (Common.test_is_m (String "m" (String c' rest'))) with false.
    cbv iota. rewrite Hrep.
    destruct (split_slash_first "m" (String c' rest') eq_refl) as (part & parts & Hsplit).
    rewrite Hsplit. cbn [Common.map_throwing].
    rewrite parse_segment_root_marker. discriminate.
Qed.

(** C2, as it holds — the normalized string of a parsed path is never
    accepted by [parseBip32Path] again: it lacks the root marker, and the
    parser throws its first error. With the marker and a separator put back
    in front, the parser returns the same indices and the same normalized
    string, for every path but the marker alone. *)
Theorem parseBip32Path_normalized_needs_root (path : string) (parsed : Common.Bip32Path) :
  Common.parseBip32Path path = Return parsed ->
  Common.parseBip32Path (Common.normalized parsed) = Throw (new_Error MsgPathMustStartWithM) /\
  (path <> "m" ->
   path = ("m/" ++ Common.normalized parsed)%string /\
   Common.parseBip32Path ("m/" ++ Common.normalized parsed) = Return parsed).
Proof.
  intros Hparse.
  destruct (parseBip32Path_Return_shape path parsed Hparse) as [[-> ->] | [Hpath Hroot]].
  - split; [reflexivity|]. intros Hne. now contradiction Hne.
  - split.
    + unfold Common.parseBip32Path. now rewrite Hroot.
    + intros _. change ("m/" ++ Common.normalized parsed)%string
        with (String "m" (String "/" (Common.normalized parsed))).
      rewrite <- Hpath. split; [reflexivity | exact Hparse].
Qed.

Lemma parseBip32Path_normalized_needs_root_witness :
  Common.parseBip32Path (Common.normalized (Common.mkBip32Path "44'/60'" [0x8000002c; 0x8000003c])) =
    Throw (new_Error MsgPathMustStartWithM) /\
  ("m/44'/60'" <> "m" ->
   "m/44'/60'" = ("m/" ++ Common.normalized (Common.mkBip32Path "44'/60'" [0x8000002c; 0x8000003c]))%string /\
   Common.parseBip32Path ("m/" ++ Common.normalized (Common.mkBip32Path "44'/60'" [0x8000002c; 0x8000003c])) =
     Return (Common.mkBip32Path "44'/60'" [0x8000002c; 0x8000003c])).
Proof.
  apply (parseBip32Path_normalized_needs_root "m/44'/60'"). reflexivity.
Defined.

(** C2, as stated, fails on the default path: its normalized string is
    rejected for want of the root marker. *)
Lemma reparses_normalized_default_path_fails :
  ~ reparses_normalized "m/44'/60'/0'/0/0".
Proof.
  intros H.
  destruct (H _ parse_default_path) as (again & Hagain & _).
  discriminate Hagain.
Qed.

(** ** The retry executor *)

Section RetryProperties.
Import Common.
Context {World App Result : Type}.
Variable sleep : Z -> World -> World.
Variable container_app : World -> App.
Variable errorHook : option (JsError -> result unit).
Variable operation : App -> World -> result Result * World.

Local Abbreviation loop := (retry_loop sleep container_app errorHook operation).
Local Abbreviation at_ := (world_at sleep container_app operation).
Local Abbreviation try_ := (attempt container_app operation).

Lemma iter_after_pause k (c : result Result) (w : World) a p :
  Nat.iter k after_pause (mkRun c w a p) = mkRun c w (k + a) (k + p).
Proof.
  induction k as [|k IH]; [reflexivity|].
  rewrite Nat.iter_succ, IH. reflexivity.
Qed.

Lemma world_at_succ i w :
  at_ (S i) w = at_ i (next_attempt_world sleep container_app operation w).
Proof. unfold world_at. apply Nat.iter_succ_r. Qed.

(** Attempts that are busy and pass the hook are each followed by a pause
    and the next attempt. *)
Lemma retry_loop_skips k : forall w m,
  (forall i, (i < k)%nat -> retried_at sleep container_app errorHook operation i w) ->
  loop (k + m)%nat w = Nat.iter k after_pause (loop m (at_ k w)).
Proof.
  induction k as [|k IH]; intros w m Hbusy; [reflexivity|].
  destruct (Hbusy 0%nat ltac:(lia)) as (e & He & Hlocked & Hhook).
  unfold outcome_at in He. change (at_ 0 w) with w in He.
  change (S k + m)%nat with (S (k + m)). cbn [retry_loop].
  fold (try_ w). destruct (try_ w) as [res w1] eqn:Htry.
  cbn [fst] in He. subst res. rewrite Hhook, Hlocked. cbn [negb].
  rewrite world_at_succ, Nat.iter_succ. f_equal.
  unfold next_attempt_world. rewrite Htry. cbn [snd].
  apply IH. intros i Hi.
  destruct (Hbusy (S i) ltac:(lia)) as (e' & He' & Hl' & Hh').
  exists e'. repeat split; try assumption.
  unfold outcome_at in *. rewrite world_at_succ in He'.
  unfold next_attempt_world in He'. rewrite Htry in He'. exact He'.
Qed.

Lemma retry_loop_returns m w res :
  fst (try_ w) = Return res ->
  loop (S m) w = mkRun (Return res) (snd (try_ w)) 1 0.
Proof.
  intros H. cbn [retry_loop]. fold (try_ w).
  destruct (try_ w) as [r w1]. cbn [fst snd] in *. now subst r.
Qed.



End RetryProperties.

(** C4, as it holds — when the error hook, if there is one, returns
    normally on the busy failures: an operation that fails with the busy
    sentinel on [k < 1200] attempts and then succeeds makes [retry] return
    the value after [k + 1] attempts and exactly [k] pauses; an operation
    that does so on the first 1200 attempts makes it fail with the timeout
    error after exactly 1200 attempts and 1200 pauses. *)
Theorem retry_absorbs_busy_when_hook_passes
    {World App Result : Type} (sleep : Z -> World -> World)
    (container_app : World -> App) (errorHook : option (JsError -> result unit))
    (operation : App -> World -> result Result * World) (w : World) (k : nat) :
  (forall i, (i < k)%nat ->
     Common.retried_at sleep container_app errorHook operation i w) ->
  (forall res, (k < 1200)%nat ->
     Common.outcome_at sleep container_app operation k w = Return res ->
     Common.retry sleep container_app errorHook operation w =
     Common.mkRun (Return res)
       (snd (Common.attempt container_app operation
               (Common.world_at sleep container_app operation k w)))
       (S k) k) /\
  (k = 1200%nat ->
   Common.retry sleep container_app errorHook operation w =
   Common.mkRun (Throw (new_Error MsgTimeout))
     (Common.world_at sleep container_app operation 1200 w) 1200 1200).
Proof.
  intros Hbusy. split.
  - intros res Hk Hres. unfold Common.retry.
    replace 1200%nat with (k + S (1199 - k))%nat by lia.
    rewrite (retry_loop_skips _ _ _ _ k w _ Hbusy).
    rewrite (retry_loop_returns _ _ _ _ _ _ res Hres).
    rewrite iter_after_pause. f_equal; lia.
  - intros ->. unfold Common.retry.
    change 1200%nat with (1200 + 0)%nat at 1.
    rewrite (retry_loop_skips _ _ _ _ 1200 w 0 Hbusy).
    cbn [Common.retry_loop]. now rewrite iter_after_pause.
Qed.

Lemma failing_first_world_at k error answer i :
  Common.world_at Script.no_wait Script.the_app (Script.failing_first k error answer) i 0%nat = i.
Proof.
  induction i as [|i IH]; [reflexivity|].
  unfold Common.world_at in *. rewrite Nat.iter_succ, IH. reflexivity.
Qed.

Lemma failing_first_retried k answer i :
  (i < k)%nat ->
  Common.retried_at Script.no_wait Script.the_app (Some errorHook)
    (Script.failing_first k Script.busy_error answer) i 0%nat.
Proof.
  intros Hi. exists Script.busy_error. unfold Common.outcome_at.
  rewrite (failing_first_world_at k Script.busy_error answer i).
  unfold Common.attempt, Script.failing_first. cbn [fst].
  apply Nat.ltb_lt in Hi. rewrite Hi. repeat split; reflexivity.
Qed.

Lemma retry_absorbs_busy_when_hook_passes_witness :
  Common.retry Script.no_wait Script.the_app (Some errorHook)
    (Script.failing_first 2 Script.busy_error 7) 0%nat =
  Common.mkRun (Return 7) 3%nat 3 2 /\
  Common.retry Script.no_wait Script.the_app (Some errorHook)
    (Script.failing_first 1200 Script.busy_error 7) 0%nat =
  Common.mkRun (Throw (new_Error MsgTimeout)) 1200%nat 1200 1200.
Proof.
  split.
  - apply (proj1 (retry_absorbs_busy_when_hook_passes Script.no_wait Script.the_app
                    (Some errorHook) (Script.failing_first 2 Script.busy_error 7) 0%nat 2
                    (fun i Hi => failing_first_retried 2 7 i Hi)) 7); [lia | reflexivity].
  - rewrite <- (failing_first_world_at 1200 Script.busy_error 7 1200) at 3.
    apply (proj2 (retry_absorbs_busy_when_hook_passes Script.no_wait Script.the_app
                    (Some errorHook) (Script.failing_first 1200 Script.busy_error 7) 0%nat 1200
                    (fun i Hi => failing_first_retried 1200 7 i Hi))); reflexivity.
Defined.

(** C4, as stated, fails for an executor whose hook throws on a busy
    failure: with a hook that rewrites every error, one busy rejection
    ends the call, and so does, with the hook of the ethers signers, a busy
    rejection that carries status 27404; the value of the second attempt
    is never returned. *)
Lemma absorbs_busy_fails_with_throwing_hook :
  ~ Common.absorbs_busy Script.no_wait Script.the_app (Some Script.rewriting_hook)
      (Script.failing_first 1 Script.busy_error 7) /\
  ~ Common.absorbs_busy Script.no_wait Script.the_app (Some errorHook)
      (Script.failing_first 1 Script.busy_app_closed_error 7).
Proof.
  split; intros H; destruct (H 0%nat) as [Hfirst _];
    destruct (Hfirst 1%nat 7) as [Hres _]; try lia; try reflexivity;
    try (vm_compute in Hres; discriminate Hres).
  - intros i Hi. assert (i = 0)%nat as -> by lia.
    exists Script.busy_error. split; reflexivity.
  - intros i Hi. assert (i = 0)%nat as -> by lia.
    exists Script.busy_app_closed_error. split; reflexivity.
Qed.





(** ** The shared device session *)

Section SessionProperties.
Import Session.
#[local] Set Warnings "-clear-no-such-hyp".

Ltac step_cases H :=
  unfold step, set_caller in H; repeat case_match; simplify_eq.

Lemma init_Inv paths : Inv paths (init paths).
Proof.
  constructor; unfold init; cbn; intros.
  all: repeat match goal with
         | H : (NotCalled <$> _) !! _ = Some _ |- _ =>
             rewrite list_lookup_fmap in H;
             apply fmap_Some in H as (? & ? & ?)
         end; simplify_eq; eauto; try done.
Qed.

Ltac learn H :=
  let T := type of H in
  lazymatch goal with
  | _ : T |- _ => fail
  | _ => pose proof H
  end.

Lemma has_run_insert (paths : list string) (l : list Caller) c k0 k' :
  l !! c = Some k0 -> has_run k' = true ->
  (exists c0 path parsed k,
      paths !! c0 = Some path /\ Common.parseBip32Path path = Return parsed /\
      l !! c0 = Some k /\ has_run k = true) ->
  exists c0 path parsed k,
      paths !! c0 = Some path /\ Common.parseBip32Path path = Return parsed /\
      <[c := k']> l !! c0 = Some k /\ has_run k = true.
Proof.
  intros Hc Hk' (c0 & path & parsed & k & Hp & Hv & Hl & Hr).
  destruct (decide (c0 = c)) as [->|Hne].
  - exists c, path, parsed, k'. repeat split; try assumption.
    apply list_lookup_insert_eq. eapply lookup_lt_Some, Hc.
  - exists c0, path, parsed, k. repeat split; try assumption.
    rewrite list_lookup_insert_ne by congruence. assumption.
Qed.

Ltac saturate Hnc Hidle Hao Hac Hres Hsl :=
  repeat match goal with
    | H : callers _ !! _ = Some (AwaitOpen _ _) |- _ => learn (Hao _ _ _ H)
    | H : callers _ !! _ = Some (AwaitConfig _ _) |- _ => learn (Hac _ _ _ H)
    | H : callers _ !! _ = Some (AwaitSleep _ _) |- _ => learn (Hsl _ _ _ H)
    | H : callers _ !! _ = Some (NotCalled _) |- _ => learn (Hnc _ _ H)
    | H : callers _ !! _ = Some (Resolved _ _) |- _ => learn (Hres _ _ _ H)
    | H : callers _ !! _ = Some _ |- _ => learn (Hidle _ _ eq_refl H)
    end.

Ltac two_initializers Hsingle :=
  match goal with
  | H1 : callers _ !! ?c1 = Some _, H2 : callers _ !! ?c2 = Some _, Hne : ?c1 ≠ ?c2 |- _ =>
      exfalso; apply Hne; apply (Hsingle _ _ _ _ H1 H2); reflexivity
  end.

Lemma step_Inv paths l p p' :
  Inv paths p -> step l p = Some p' -> Inv paths p'.
Proof.
  intros [Hnc Hidle Hun Hop Hsingle Hao Hac Hchk Hres Hsl] Hstep.
  unfold step, set_caller in Hstep.
  destruct (createEthApp p) eqn:Hflag;
    [destruct (Hop eq_refl) as [Hopened Hwit] | destruct (Hun eq_refl) as [Happ Hopened]];
    clear Hun Hop.
  all: repeat case_match; simplify_eq.
  all: constructor; cbn; intros.
  all: repeat match goal with
         | H : <[_ := _]> _ !! _ = Some _ |- _ =>
             apply list_lookup_insert_Some in H as [(? & ? & ?) | (? & ?)]
         end; simplify_eq; cbn in *.
  all: try (exfalso; done).
  all: try (exfalso; congruence).
  all: try solve [eauto 4].
  all: try lia.
  all: try (split; [congruence || lia | eapply has_run_insert; eauto; fail]).
  all: try (two_initializers Hsingle; fail).
  all: saturate Hnc Hidle Hao Hac Hres Hsl.
  all: try clear Hnc; try clear Hidle; try clear Hao; try clear Hac; try clear Hres;
    try clear Hsl; try clear Hsingle.
  all: repeat match goal with
         | H : (_ =? _)%nat = false |- _ => apply Nat.eqb_neq in H
         | H : (_ <=? _)%nat = true |- _ => apply Nat.leb_le in H
         | H : (_ <=? _)%nat = false |- _ => apply Nat.leb_gt in H
         end.
  all: try lia.
  all: try (split; [lia|];
            match goal with
            | H : _ !! ?c = Some ?x |- _ =>
                lazymatch type of x with string => idtac end;
                exists c; do 3 eexists; repeat split; [exact H | eassumption | |];
                [apply list_lookup_insert_eq; eapply lookup_lt_Some; eassumption
                | reflexivity]
            end; fail).
  all: try (split; [assumption|]; destruct (checked p) as [|h0 ?]; [reflexivity|];
            specialize (Hchk h0 (or_introl eq_refl)); congruence).
  all: naive_solver.
Qed.

Lemma run_Inv paths schedule : forall p p',
  Inv paths p -> run schedule p = Some p' -> Inv paths p'.
Proof.
  induction schedule as [|l schedule IH]; intros p p' HI Hrun; cbn in Hrun.
  - now simplify_eq.
  - destruct (step l p) as [p1|] eqn:Hstep; [|discriminate].
    eapply IH; [eapply step_Inv; eassumption | exact Hrun].
Qed.

Lemma reachable_Inv paths schedule p :
  run schedule (init paths) = Some p -> Inv paths p.
Proof. apply run_Inv, init_Inv. Qed.

Lemma run_app schedule1 schedule2 p :
  run (schedule1 ++ schedule2) p =
  match run schedule1 p with
  | Some p1 => run schedule2 p1
  | None => None
  end.
Proof.
  revert p. induction schedule1 as [|l schedule1 IH]; intros p; cbn; [reflexivity|].
  destruct (step l p); [apply IH | reflexivity].
Qed.

(** A step changes the caller of its label only, and calls
    [Transport.open] only for a caller that finds the flag unset. *)
Lemma step_frame l p p' :
  step l p = Some p' ->
  (forall c, c <> label_of l -> callers p' !! c = callers p !! c) /\
  (opened p' = opened p \/
   (createEthApp p = false /\ opened p' = S (opened p) /\ l = Call (label_of l))).
Proof.
  intros Hstep. step_cases Hstep; cbn; split;
    try (intros c' Hne; apply list_lookup_insert_ne; congruence);
    try (left; reflexivity).
  right. repeat split. now destruct (createEthApp p).
Qed.

(** The published handle is never replaced. *)
Lemma step_app_stable paths l p p' h :
  Inv paths p -> step l p = Some p' -> app p = Some h -> app p' = Some h.
Proof.
  intros HI Hstep Happ. step_cases Hstep; cbn; try assumption; try reflexivity.
  match goal with
  | H : callers p !! _ = Some (AwaitOpen _ _) |- _ =>
      destruct (inv_await_open _ _ HI _ _ _ H); congruence
  end.
Qed.

Lemma run_app_stable paths schedule : forall p p' h,
  Inv paths p -> run schedule p = Some p' -> app p = Some h -> app p' = Some h.
Proof.
  induction schedule as [|l schedule IH]; intros p p' h HI Hrun Happ; cbn in Hrun.
  - now simplify_eq.
  - destruct (step l p) as [p1|] eqn:Hstep; [|discriminate].
    eapply IH; [eapply step_Inv; eassumption | exact Hrun |].
    eapply step_app_stable; eassumption.
Qed.

(** *** After a failed [Transport.open] *)

Lemma wakes_cons c l schedule :
  wakes c (l :: schedule) =
  ((if is_Timer_of c l then 1 else 0) + wakes c schedule)%nat.
Proof. unfold wakes. cbn. now destruct (is_Timer_of c l). Qed.

Lemma wakes_other c l schedule :
  c <> label_of l -> wakes c (l :: schedule) = wakes c schedule.
Proof.
  intros Hne. rewrite wakes_cons.
  destruct l; cbn in *; try reflexivity.
  destruct (Nat.eqb_spec c0 c); [congruence | reflexivity].
Qed.

Lemma stuck_progress_refl p c :
  sleeps_bounded p -> stuck_progress (callers p !! c) (callers p !! c) 0.
Proof.
  intros Hb. unfold stuck_progress.
  destruct (callers p !! c) as [[]|] eqn:E; auto.
  left. split; [|now rewrite Nat.add_0_r].
  specialize (Hb _ _ _ E). lia.
Qed.

(** One step of a stuck process: it stays stuck, opens nothing, and the
    caller of the label is turned away, starts to poll, or polls once more. *)
Lemma stuck_step l p p' :
  stuck p -> sleeps_bounded p -> step l p = Some p' ->
  stuck p' /\ sleeps_bounded p' /\ opened p' = opened p /\
  forall after n,
    stuck_progress (callers p' !! label_of l) after n ->
    stuck_progress (callers p !! label_of l) after
      ((if is_Timer_of (label_of l) l then 1 else 0) + n).
Proof.
  intros (Hflag & Happ & Hnone) Hb Hstep.
  unfold step, set_caller in Hstep. rewrite Hflag, Happ in Hstep. cbn in Hstep.
  repeat case_match; simplify_eq;
    try match goal with
      | H : callers _ !! _ = Some (AwaitOpen _ _) |- _ => now apply Hnone in H
      | H : callers _ !! _ = Some (AwaitConfig _ _) |- _ => now apply Hnone in H
      end.
  all: match goal with
       | H : callers _ !! ?c = Some _ |- _ =>
           pose proof (lookup_lt_Some _ _ _ H) as Hlt
       end.
  all: cbn [label_of is_Timer_of] in *; rewrite ?Nat.eqb_refl in *; try discriminate.
  all: repeat match goal with
         | H : (_ =? _)%nat = true |- _ => apply Nat.eqb_eq in H
         | H : (_ =? _)%nat = false |- _ => apply Nat.eqb_neq in H
         | H : (_ <? _)%nat = true |- _ => apply Nat.ltb_lt in H
         | H : (_ <? _)%nat = false |- _ => apply Nat.ltb_ge in H
         | H : (_ <=? _)%nat = true |- _ => apply Nat.leb_le in H
         | H : (_ <=? _)%nat = false |- _ => apply Nat.leb_gt in H
         | H : callers _ !! _ = Some (AwaitSleep _ _) |- _ => learn (Hb _ _ _ H)
         end.
  all: try lia.
  all: (split; [|split; [|split]]); cbn; try reflexivity.
  all: try (repeat split; try assumption; intros c' k' Hc';
            apply list_lookup_insert_Some in Hc' as [(? & ? & ?) | (? & ?)];
            simplify_eq; eauto; fail).
  all: try (intros c' path' i' Hc';
            apply list_lookup_insert_Some in Hc' as [(? & ? & ?) | (? & ?)];
            simplify_eq; eauto; lia).
  all: intros after n; rewrite list_lookup_insert_eq by assumption.
  all: match goal with H : callers _ !! _ = Some _ |- _ => rewrite H end.
  all: unfold stuck_progress, polling; cbn.
  all: intros Hp; destruct_or?; destruct_and?; simplify_eq.
  all: first [ right; right; eauto; fail
             | right; left; eexists; split; [eassumption|]; left; split;
               [lia | reflexivity]
             | right; left; eexists; split; [eassumption|]; right; split;
               [lia | reflexivity]
             | left; split; [lia | do 2 f_equal; lia]
             | right; split; [lia | reflexivity] ].
Qed.

Lemma stuck_run schedule : forall p p',
  stuck p -> sleeps_bounded p -> run schedule p = Some p' ->
  stuck p' /\ sleeps_bounded p' /\ opened p' = opened p /\
  forall c, stuck_progress (callers p !! c) (callers p' !! c) (wakes c schedule).
Proof.
  induction schedule as [|l schedule IH]; intros p p' Hs Hb Hrun; cbn in Hrun.
  - simplify_eq. repeat split; try assumption; try apply Hs.
    intros c. now apply stuck_progress_refl.
  - destruct (step l p) as [p1|] eqn:Hstep; [|discriminate].
    destruct (stuck_step l p p1 Hs Hb Hstep) as (Hs1 & Hb1 & Ho1 & Hmove).
    destruct (IH p1 p' Hs1 Hb1 Hrun) as (Hs' & Hb' & Ho' & Hprog).
    split; [exact Hs'|]. split; [exact Hb'|]. split; [congruence|].
    intros c. destruct (decide (c = label_of l)) as [->|Hne].
    + rewrite wakes_cons. apply Hmove, Hprog.
    + rewrite (wakes_other c l schedule Hne).
      rewrite <- (proj1 (step_frame l p p1 Hstep) c Hne). apply Hprog.
Qed.

Lemma failed_open_stuck paths p c path t e p' :
  Inv paths p -> callers p !! c = Some (AwaitOpen path t) ->
  step (OpenSettled c (Some e)) p = Some p' ->
  stuck p' /\ sleeps_bounded p' /\ opened p' = 1%nat /\
  callers p' = <[c := Rejected e]> (callers p).
Proof.
  intros HI Hc Hstep. cbn in Hstep. rewrite Hc in Hstep. simplify_eq.
  destruct (createEthApp p) eqn:Hflag.
  2: { destruct (inv_idle _ _ HI c _ Hflag Hc) as [[? ?] | (? & ? & _ & _ & ?)];
       discriminate. }
  destruct (inv_await_open _ _ HI _ _ _ Hc) as [Happ _].
  repeat split; cbn; try assumption.
  - intros c' k' Hc'.
    apply list_lookup_insert_Some in Hc' as [(? & ? & ?) | (Hne & Hc')];
      simplify_eq; [reflexivity|].
    destruct (initializing k') eqn:Hk'; [|reflexivity].
    exfalso. apply Hne. eapply (inv_single _ _ HI); eauto.
  - intros c' path' i Hc'.
    apply list_lookup_insert_Some in Hc' as [(? & ? & ?) | (Hne & Hc')];
      simplify_eq. eapply (inv_sleep _ _ HI); eauto.
  - apply (inv_opened _ _ HI Hflag).
Qed.

End SessionProperties.

(** C1, as it holds — every call of [create] that resolves hands out the
    one shared handle, built on the transport that the single call of
    [Transport.open] resolved to; the caller that opened the transport
    resolves only once the configuration query on that handle has been
    answered. The handle is published when the transport is open, before
    the query is sent, and a caller whose pause runs out while the handle
    is published leaves the loop with it, whether the query has been
    answered or not. *)
Theorem create_returns_published_handle
    (paths : list string) (schedule : list Session.Label) (p : Session.Process) :
  Session.run schedule (Session.init paths) = Some p ->
  (forall c via signer,
     Session.callers p !! c = Some (Session.Resolved via signer) ->
     exists h, Session.signer_app signer = Some h /\ Session.app p = Some h /\
               Session.opened p = 1%nat /\
               (via = Session.Initialized -> In h (Session.checked p))) /\
  (forall c path transport,
     Session.callers p !! c = Some (Session.AwaitOpen path transport) ->
     exists p',
       Session.step (Session.OpenSettled c None) p = Some p' /\
       Session.app p' = Some transport /\ Session.checked p' = [] /\
       Session.callers p' !! c = Some (Session.AwaitConfig path transport)) /\
  (forall c path i h,
     Session.callers p !! c = Some (Session.AwaitSleep path i) ->
     Session.app p = Some h ->
     exists p',
       Session.step (Session.Timer c) p = Some p' /\
       Session.checked p' = Session.checked p /\
       Session.callers p' !! c =
       Some (Session.Resolved Session.Polled (Session.mkSigner (Some h) path))).
Proof.
  intros Hrun. pose proof (reachable_Inv _ _ _ Hrun) as HI.
  split; [|split].
  - intros c via signer Hc.
    destruct (Session.inv_resolved _ _ HI _ _ _ Hc) as (h & Hs & Happ & Hchk).
    exists h. repeat split; try assumption.
    destruct (Session.createEthApp p) eqn:Hflag.
    + apply (Session.inv_opened _ _ HI Hflag).
    + destruct (Session.inv_unopened _ _ HI Hflag). congruence.
  - intros c path transport Hc.
    destruct (Session.inv_await_open _ _ HI _ _ _ Hc) as [_ Hchk].
    eexists. cbn. rewrite Hc. split; [reflexivity|]. cbn.
    repeat split; try assumption.
    apply list_lookup_insert_eq. eapply lookup_lt_Some, Hc.
  - intros c path i h Hc Happ.
    eexists. cbn. rewrite Hc, Happ. split; [reflexivity|]. cbn.
    split; [reflexivity|].
    apply list_lookup_insert_eq. eapply lookup_lt_Some, Hc.
Qed.

Lemma create_returns_published_handle_witness :
  (exists h, Session.signer_app (Session.mkSigner (Some 0%nat) "44'/60'/0'/0/0") = Some h /\
             Session.app (Session.mkProcess true (Some 0%nat) 1 [0%nat]
                            [Session.Resolved Session.Initialized
                               (Session.mkSigner (Some 0%nat) "44'/60'/0'/0/0")]) = Some h /\
             1%nat = 1%nat /\
             (Session.Initialized = Session.Initialized -> In h [0%nat])) /\
  (exists p',
     Session.step (Session.Timer 1)
       (Session.mkProcess true (Some 0%nat) 1 []
          [Session.AwaitConfig "44'/60'/0'/0/0" 0%nat;
           Session.AwaitSleep "44'/60'/0'/0/1" 0%nat]) = Some p' /\
     Session.checked p' = [] /\
     Session.callers p' !! 1%nat =
     Some (Session.Resolved Session.Polled
             (Session.mkSigner (Some 0%nat) "44'/60'/0'/0/1"))).
Proof.
  split.
  - exact (proj1 (create_returns_published_handle ["m/44'/60'/0'/0/0"]
                    [Session.Call 0; Session.OpenSettled 0 None; Session.ConfigSettled 0 None]
                    _ eq_refl)
             0%nat Session.Initialized _ eq_refl).
  - exact (proj2 (proj2 (create_returns_published_handle
                    ["m/44'/60'/0'/0/0"; "m/44'/60'/0'/0/1"]
                    [Session.Call 0; Session.Call 1; Session.OpenSettled 0 None]
                    _ eq_refl))
             1%nat "44'/60'/0'/0/1" 0%nat 0%nat eq_refl eq_refl).
Defined.

(** C1, as stated, fails: a second caller that polls while the first one
    awaits the configuration query leaves the loop with the handle as soon
    as the transport is open, before the query has been answered. *)
Lemma only_checked_handles_fails_for_poller :
  ~ only_checked_handles ["m/44'/60'/0'/0/0"; "m/44'/60'/0'/0/1"].
Proof.
  intros H.
  destruct (H [Session.Call 0; Session.Call 1; Session.OpenSettled 0 None; Session.Timer 1]
              _ 1%nat Session.Polled (Session.mkSigner (Some 0%nat) "44'/60'/0'/0/1")
              eq_refl eq_refl) as (h & _ & Hin).
  exact Hin.
Qed.


(** C6, as it holds — over any interleaving of any calls of [create],
    [Transport.open] is called at most once, and exactly once as soon as a
    call with a valid derivation path has run (a call with an invalid path
    throws before it looks at the flag); only a step of a caller that finds
    the flag unset opens a transport, and a caller with a valid path that
    finds the published handle resolves with it at once and opens nothing. *)
Theorem create_opens_transport_once
    (paths : list string) (schedule : list Session.Label) (p : Session.Process) :
  Session.run schedule (Session.init paths) = Some p ->
  (Session.opened p <= 1)%nat /\
  (Session.opened p = 1%nat <->
   exists c path parsed k,
     paths !! c = Some path /\ Common.parseBip32Path path = Return parsed /\
     Session.callers p !! c = Some k /\ Session.has_run k = true) /\
  (forall l p', Session.step l p = Some p' ->
     Session.opened p' = Session.opened p \/
     (Session.createEthApp p = false /\ Session.opened p' = 1%nat /\
      l = Session.Call (Session.label_of l))) /\
  (forall c path parsed h,
     Session.callers p !! c = Some (Session.NotCalled path) ->
     Common.parseBip32Path path = Return parsed ->
     Session.app p = Some h ->
     exists p', Session.step (Session.Call c) p = Some p' /\
                Session.opened p' = Session.opened p /\
                Session.callers p' !! c =
                Some (Session.Resolved Session.Reused
                        (Session.mkSigner (Some h) (Common.normalized parsed)))).
Proof.
  intros Hrun. pose proof (reachable_Inv _ _ _ Hrun) as HI.
  assert (Hflag : Session.createEthApp p = true <-> Session.opened p = 1%nat).
  { destruct (Session.createEthApp p) eqn:E.
    - split; [intros _; apply (Session.inv_opened _ _ HI E) | reflexivity].
    - destruct (Session.inv_unopened _ _ HI E) as [_ Ho]. rewrite Ho.
      split; discriminate. }
  split; [|split; [|split]].
  - destruct (Session.createEthApp p) eqn:E.
    + rewrite (proj1 Hflag eq_refl). lia.
    + destruct (Session.inv_unopened _ _ HI E) as [_ ->]. lia.
  - split.
    + intros Ho. apply Hflag in Ho. apply (Session.inv_opened _ _ HI Ho).
    + intros (c & path & parsed & k & Hpath & Hvalid & Hc & Hk).
      apply Hflag. destruct (Session.createEthApp p) eqn:E; [reflexivity|].
      destruct (Session.inv_idle _ _ HI c k E Hc)
        as [[path' ->] | (path' & e & Hpath' & Hthrow & ->)].
      * discriminate Hk.
      * congruence.
  - intros l p' Hstep.
    destruct (proj2 (step_frame l p p' Hstep)) as [Ho | (Hoff & Ho & Hl)];
      [left; exact Ho | right].
    destruct (Session.inv_unopened _ _ HI Hoff) as [_ Hzero].
    repeat split; try assumption. congruence.
  - intros c path parsed h Hc Hvalid Happ.
    assert (Hon : Session.createEthApp p = true).
    { destruct (Session.createEthApp p) eqn:E; [reflexivity|].
      destruct (Session.inv_unopened _ _ HI E). congruence. }
    eexists. cbn. rewrite Hc, Hvalid, Hon, Happ. cbn.
    split; [reflexivity|]. split; [reflexivity|]. cbn.
    apply list_lookup_insert_eq. eapply lookup_lt_Some, Hc.
Qed.

Lemma create_opens_transport_once_witness :
  exists p,
    Session.run [Session.Call 0; Session.OpenSettled 0 None; Session.Call 2]
      (Session.init ["m/44'/60'/0'/0/0"; "m/44'/60'/0'/0/1"; "44'/501'/0'/0'"]) = Some p /\
    (Session.opened p <= 1)%nat /\
    Session.opened p = 1%nat /\
    exists p', Session.step (Session.Call 1) p = Some p' /\
               Session.opened p' = Session.opened p /\
               Session.callers p' !! 1%nat =
               Some (Session.Resolved Session.Reused
                       (Session.mkSigner (Some 0%nat) "44'/60'/0'/0/1")).
Proof.
  eexists. split; [reflexivity|].
  destruct (create_opens_transport_once
              ["m/44'/60'/0'/0/0"; "m/44'/60'/0'/0/1"; "44'/501'/0'/0'"]
              [Session.Call 0; Session.OpenSettled 0 None; Session.Call 2] _ eq_refl)
    as (Hle & Hiff & _ & Hreuse).
  split; [exact Hle|]. split.
  - apply Hiff. exists 0%nat, "m/44'/60'/0'/0/0". do 2 eexists.
    repeat split; reflexivity.
  - apply (Hreuse 1%nat "m/44'/60'/0'/0/1" (Common.mkBip32Path "44'/60'/0'/0/1"
                                                  [0x8000002c; 0x8000003c; 0x80000000; 0; 1])
                     0%nat);
      reflexivity.
Defined.

(** C6, as stated, fails: a call of [create] with a path that lacks the
    root marker, as in the test script of the Solana signer, has run and
    thrown, and [Transport.open] was not called. *)
Lemma opens_once_fails_for_invalid_path :
  ~ opens_once_any_call_ran ["44'/501'/0'/0'"].
Proof.
  intros H.
  destruct (H [Session.Call 0] _ eq_refl) as [_ Hone].
  discriminate Hone.
  exists 0%nat. eexists. split; reflexivity.
Qed.

(** C9, as it holds — when the first caller throws while the transport is
    being opened, the flag stays set and no handle is ever published:
    nobody resolves, [Transport.open] is not called again, and a later
    call of [create] with a valid path polls, one pause after the other,
    until its 1200th pause runs out and it throws the timeout error (a
    later call with an invalid path throws the error of the parser). When
    the first caller throws in the configuration query instead, the handle
    has been published already and stays: a later call with a valid path
    resolves with it at once, and again nothing is opened. *)
Theorem create_failure_is_never_retried
    (paths : list string) (before : list Session.Label) (p : Session.Process) :
  Session.run before (Session.init paths) = Some p ->
  (forall c path t e later p',
     Session.callers p !! c = Some (Session.AwaitOpen path t) ->
     Session.run (Session.OpenSettled c (Some e) :: later) p = Some p' ->
     Session.createEthApp p' = true /\ Session.app p' = None /\
     Session.opened p' = 1%nat /\
     (forall c' via signer,
        Session.callers p' !! c' <> Some (Session.Resolved via signer)) /\
     (forall c' path',
        Session.callers p !! c' = Some (Session.NotCalled path') ->
        Session.stuck_progress (Some (Session.NotCalled path'))
          (Session.callers p' !! c') (Session.wakes c' later)) /\
     (forall c' path' i,
        Session.callers p' !! c' = Some (Session.AwaitSleep path' i) ->
        is_Some (Session.step (Session.Timer c') p'))) /\
  (forall c path h e later p',
     Session.callers p !! c = Some (Session.AwaitConfig path h) ->
     Session.run (Session.ConfigSettled c (Some e) :: later) p = Some p' ->
     Session.createEthApp p' = true /\ Session.app p' = Some h /\
     Session.opened p' = 1%nat /\
     (forall c' path' parsed,
        Session.callers p' !! c' = Some (Session.NotCalled path') ->
        Common.parseBip32Path path' = Return parsed ->
        exists p'',
          Session.step (Session.Call c') p' = Some p'' /\
          Session.opened p'' = 1%nat /\
          Session.callers p'' !! c' =
          Some (Session.Resolved Session.Reused
                  (Session.mkSigner (Some h) (Common.normalized parsed))))).
Proof.
  intros Hrun. pose proof (reachable_Inv _ _ _ Hrun) as HI. split.
  - intros c path t e later p' Hc Hlater.
    change (Session.run (Session.OpenSettled c (Some e) :: later) p)
      with (match Session.step (Session.OpenSettled c (Some e)) p with
            | Some p1 => Session.run later p1
            | None => None
            end) in Hlater.
    destruct (Session.step (Session.OpenSettled c (Some e)) p) as [p1|] eqn:Hstep;
      [|discriminate].
    destruct (failed_open_stuck _ _ _ _ _ _ _ HI Hc Hstep) as (Hs1 & Hb1 & Ho1 & Hcs1).
    destruct (stuck_run later p1 p' Hs1 Hb1 Hlater) as (Hs' & Hb' & Ho' & Hprog).
    pose proof (run_Inv _ _ _ _ (step_Inv _ _ _ _ HI Hstep) Hlater) as HI'.
    destruct Hs' as (Hflag' & Happ' & Hnone').
    repeat split; try assumption; try congruence.
    + intros c' via signer Hc'.
      destruct (Session.inv_resolved _ _ HI' _ _ _ Hc') as (h & _ & Hh & _). congruence.
    + intros c' path' Hc'. specialize (Hprog c').
      assert (Hne : c' <> c) by (intros ->; congruence).
      rewrite Hcs1, list_lookup_insert_ne, Hc' in Hprog by congruence. exact Hprog.
    + intros c' path' i Hc'. cbn. rewrite Hc', Happ'.
      destruct (i =? 1199)%nat; [eexists; reflexivity|].
      destruct (i <=? 1198)%nat; eexists; reflexivity.
  - intros c path h e later p' Hc Hlater.
    change (Session.run (Session.ConfigSettled c (Some e) :: later) p)
      with (match Session.step (Session.ConfigSettled c (Some e)) p with
            | Some p1 => Session.run later p1
            | None => None
            end) in Hlater.
    destruct (Session.step (Session.ConfigSettled c (Some e)) p) as [p1|] eqn:Hstep;
      [|discriminate].
    pose proof (step_Inv _ _ _ _ HI Hstep) as HI1.
    pose proof (run_Inv _ _ _ _ HI1 Hlater) as HI'.
    destruct (Session.inv_await_config _ _ HI _ _ _ Hc) as [Happ _].
    pose proof (step_app_stable _ _ _ _ _ HI Hstep Happ) as Happ1.
    pose proof (run_app_stable _ _ _ _ _ HI1 Hlater Happ1) as Happ'.
    assert (Hon : Session.createEthApp p' = true).
    { destruct (Session.createEthApp p') eqn:E; [reflexivity|].
      destruct (Session.inv_unopened _ _ HI' E). congruence. }
    pose proof (proj1 (Session.inv_opened _ _ HI' Hon)) as Ho'.
    repeat split; try assumption.
    intros c' path' parsed Hc' Hvalid.
    eexists. cbn. rewrite Hc', Hvalid, Hon, Happ'. cbn.
    split; [reflexivity|]. split; [exact Ho'|]. cbn.
    apply list_lookup_insert_eq. eapply lookup_lt_Some, Hc'.
Qed.

Lemma create_failure_is_never_retried_witness :
  (exists p',
     Session.run (Session.OpenSettled 0 (Some (Script.status_error 27013))
                    :: Session.Call 1 :: repeat (Session.Timer 1) 1200)
       (Session.mkProcess true None 1 []
          [Session.AwaitOpen "44'/60'/0'/0/0" 0; Session.NotCalled "m/44'/60'/0'/0/1"])
     = Some p' /\
     Session.app p' = None /\ Session.opened p' = 1%nat /\
     Session.stuck_progress (Some (Session.NotCalled "m/44'/60'/0'/0/1"))
       (Session.callers p' !! 1%nat)
       (Session.wakes 1 (Session.Call 1 :: repeat (Session.Timer 1) 1200))) /\
  (exists p'',
     Session.step (Session.Call 1)
       (Session.mkProcess true (Some 0%nat) 1 []
          [Session.Rejected (Script.status_error 27404);
           Session.NotCalled "m/44'/60'/0'/0/1"]) = Some p'' /\
     Session.opened p'' = 1%nat /\
     Session.callers p'' !! 1%nat =
     Some (Session.Resolved Session.Reused
             (Session.mkSigner (Some 0%nat) "44'/60'/0'/0/1"))).
Proof.
  split.
  - eexists. split; [vm_compute; reflexivity|].
    destruct (create_failure_is_never_retried
                ["m/44'/60'/0'/0/0"; "m/44'/60'/0'/0/1"] [Session.Call 0] _ eq_refl)
      as [Hopen _].
    destruct (Hopen 0%nat "44'/60'/0'/0/0" 0%nat (Script.status_error 27013)
                (Session.Call 1 :: repeat (Session.Timer 1) 1200) _ eq_refl
                ltac:(vm_compute; reflexivity))
      as (_ & Happ & Ho & _ & Hprog & _).
    split; [exact Happ|]. split; [exact Ho|].
    exact (Hprog 1%nat "m/44'/60'/0'/0/1" eq_refl).
  - destruct (create_failure_is_never_retried
                ["m/44'/60'/0'/0/0"; "m/44'/60'/0'/0/1"]
                [Session.Call 0; Session.OpenSettled 0 None] _ eq_refl)
      as [_ Hconfig].
    destruct (Hconfig 0%nat "44'/60'/0'/0/0" 0%nat (Script.status_error 27404)
                [] _ eq_refl eq_refl)
      as (_ & _ & _ & Hreuse).
    exact (Hreuse 1%nat "m/44'/60'/0'/0/1"
             (Common.mkBip32Path "44'/60'/0'/0/1" [0x8000002c; 0x8000003c; 0x80000000; 0; 1])
             eq_refl eq_refl).
Defined.

(** C9, as stated, fails for a failure of the configuration query: the
    handle was assigned before the query was sent, and the next call of
    [create] resolves with it. *)
Lemma failure_leaves_no_handle_fails_after_open :
  ~ failure_leaves_no_handle ["m/44'/60'/0'/0/0"; "m/44'/60'/0'/0/1"].
Proof.
  intros H.
  destruct (H [Session.Call 0; Session.OpenSettled 0 None] _ 0%nat
              (Script.status_error 27404) _ [Session.Call 1] _
              eq_refl (or_intror eq_refl) eq_refl) as [Happ _].
  discriminate Happ.
Qed.

(** ** The signers *)

Section SignerProperties.
Local Close Scope string_scope.
Context {Env Domain Types Value Payload : Type}.
Variable elapse : Z -> Env -> Env.

Local Abbreviation W := (@World Env Domain Types Value Payload).
Local Abbreviation Ev := (@Event Domain Types Value Payload).

Lemma retry_counts {App T : Type} (app : W -> App) hook
    (operation : App -> W -> result T * W) n w :
  let run := Common.retry_loop (sleep elapse) app hook operation n w in
  (Common.pauses run <= Common.attempts run <= S (Common.pauses run))%nat /\
  (Common.attempts run <= n)%nat.
Proof.
  revert w. induction n as [|n IH]; intros w; cbn; [lia|].
  destruct (operation (app w) w) as [[res|error] w1]; cbn; [lia|].
  destruct (Common.run_hook hook error); cbn; [|lia].
  destruct (Common.is_TransportLocked error); cbn; [|lia].
  specialize (IH (sleep elapse 100 w1)). cbn in IH. lia.
Qed.

(** The trace of a run of [retry] on an operation that makes one call. *)
Lemma retry_trace_of {App T : Type} (app : W -> App) hook (ev : Ev)
    (operation : App -> W -> result T * W) :
  (forall a w, trace (snd (operation a w)) = trace w ++ [ev]) ->
  forall n w,
    let run := Common.retry_loop (sleep elapse) app hook operation n w in
    trace (Common.world_after run) =
    trace w ++ retry_events ev (Common.attempts run) (Common.pauses run).
Proof.
  intros Hop. induction n as [|n IH]; intros w; cbn.
  - unfold retry_events. cbn. now rewrite app_nil_r.
  - pose proof (Hop (app w) w) as Hw.
    destruct (operation (app w) w) as [[res|error] w1]; cbn in *; [exact Hw|].
    destruct (Common.run_hook hook error); cbn; [|exact Hw].
    destruct (Common.is_TransportLocked error); cbn; [|exact Hw].
    rewrite (IH (sleep elapse 100 w1)). cbn. rewrite Hw.
    unfold retry_events. cbn. rewrite <- !app_assoc. reflexivity.
Qed.

Lemma retry_trace {App T : Type} (app : W -> App) hook (ev : Ev)
    (f : App -> Env -> result T * Env) n w :
  let run := Common.retry_loop (sleep elapse) app hook (fun a => external ev (f a)) n w in
  trace (Common.world_after run) =
  trace w ++ retry_events ev (Common.attempts run) (Common.pauses run).
Proof.
  apply retry_trace_of. intros a w0. unfold external.
  destruct (f a (env w0)). reflexivity.
Qed.

Lemma derivations_app (t1 t2 : list Ev) :
  derivations (t1 ++ t2) = (derivations t1 + derivations t2)%nat.
Proof. unfold derivations. now rewrite filter_app, length_app. Qed.

Lemma derivations_retry_events path a p :
  (p <= a)%nat ->
  derivations (retry_events (GetAddressCall path : Ev) a p) = a.
Proof.
  intros Hle. unfold retry_events. rewrite derivations_app.
  assert (H1 : forall k, derivations
                 (concat (repeat [GetAddressCall path : Ev; SleepCall 100] k)) = k).
  { induction k as [|k IHk]; [reflexivity|]. cbn [repeat concat].
    rewrite derivations_app, IHk. reflexivity. }
  assert (H2 : forall k, derivations (repeat (GetAddressCall path : Ev) k) = k).
  { induction k as [|k IHk]; [reflexivity|].
    change (repeat (GetAddressCall path : Ev) (S k))
      with ([GetAddressCall path : Ev] ++ repeat (GetAddressCall path) k).
    rewrite derivations_app, IHk. reflexivity. }
  rewrite H1, H2. lia.
Qed.





(** [this._retry] is [retry] on [this.ethApp] without a hook. *)
Lemma _retry_loop_retry_loop {T : Type} (this : LedgerSigner)
    (operation : @Eth Env Payload -> W -> result T * W) n w :
  _retry_loop elapse this operation n w =
  Common.retry_loop (sleep elapse) (fun _ => ethApp this) None operation n w.
Proof.
  revert w. induction n as [|n IH]; intros w; cbn; [reflexivity|].
  destruct (operation (ethApp this) w) as [[res|error] w1]; [reflexivity|].
  destruct (Common.is_TransportLocked error); cbn; [|reflexivity].
  now rewrite IH.
Qed.

Lemma retry_attempts_positive {App T : Type} (app : W -> App) hook
    (operation : App -> W -> result T * W) n w :
  (1 <= Common.attempts (Common.retry_loop (sleep elapse) app hook operation (S n) w))%nat.
Proof.
  cbn. destruct (operation (app w) w) as [[res|error] w1]; cbn; [lia|].
  destruct (Common.run_hook hook error); cbn; [|lia].
  destruct (Common.is_TransportLocked error); cbn; lia.
Qed.

(** *** The address cache *)

Variable utils_getAddress : String.string -> result String.string.
Variable app : @Eth Env Payload.
Variable solApp : @SolanaApp Env.

Local Abbreviation derive_run this w :=
  (Common.retry (sleep elapse) (fun _ : W => app) (Some errorHook)
     (fun eth => external (GetAddressCall (path this)) (Eth_getAddress eth (path this))) w).

Lemma getAddress_cached (this : LedgerSigner) (cache : gmap String.string String.string)
    (w : W) addr :
  cache !! path this = Some addr ->
  getAddress elapse utils_getAddress app this cache w = (Return addr, cache, w).
Proof. intros H. unfold getAddress. now rewrite H. Qed.

Lemma getAddress_first_call (this : LedgerSigner) (cache cache1 : gmap String.string String.string)
    (w w1 : W) addr :
  getAddress elapse utils_getAddress app this cache w = (Return addr, cache1, w1) ->
  cache1 !! path this = Some addr /\
  getAddress elapse utils_getAddress app this cache1 w1 = (Return addr, cache1, w1) /\
  (cache !! path this = None ->
   derivations (trace w1) =
     (derivations (trace w) + Common.attempts (derive_run this w))%nat /\
   (1 <= Common.attempts (derive_run this w))%nat /\
   (forall account env1,
      Eth_getAddress app (path this) (env w) = (Return account, env1) ->
      Common.attempts (derive_run this w) = 1%nat)).
Proof.
  intros Hcall.
  assert (Hcached : cache1 !! path this = Some addr).
  { unfold getAddress in Hcall.
    destruct (cache !! path this) as [cached|] eqn:Hc; [now simplify_eq|].
    unfold LedgerSigner_retry in Hcall.
    destruct (Common.completion (derive_run this w)) as [account|e]; [|discriminate].
    destruct (utils_getAddress (address account)); [|discriminate].
    simplify_eq. apply lookup_insert_eq. }
  split; [exact Hcached|]. split; [now apply getAddress_cached|].
  intros Hmiss. unfold getAddress in Hcall. rewrite Hmiss in Hcall.
  unfold LedgerSigner_retry in Hcall.
  destruct (Common.completion (derive_run this w)) as [account|e]; [|discriminate].
  destruct (utils_getAddress (address account)); [|discriminate].
  simplify_eq. split; [|split].
  - unfold Common.retry. rewrite retry_trace, derivations_app.
    rewrite derivations_retry_events; [reflexivity|].
    apply (retry_counts (fun _ : W => app) (Some errorHook)).
  - apply retry_attempts_positive.
  - intros acc env1 Hdev. unfold Common.retry. cbn. unfold external at 1.
    rewrite Hdev. reflexivity.
Qed.

Local Abbreviation sol_derive_run path w :=
  (Common.retry (sleep elapse) (fun _ : W => solApp) None
     (fun sol => external (GetAddressCall path) (Sol_getAddress sol path)) w).

Lemma Solana_getAddress_first_call (path : String.string)
    (cache cache1 : gmap String.string (list Z)) (w w1 : W) addr :
  Solana_getAddress elapse solApp path cache w = (Return addr, cache1, w1) ->
  cache1 !! path = Some addr /\
  Solana_getAddress elapse solApp path cache1 w1 = (Return addr, cache1, w1) /\
  (cache !! path = None ->
   derivations (trace w1) =
     (derivations (trace w) + Common.attempts (sol_derive_run path w))%nat /\
   (1 <= Common.attempts (sol_derive_run path w))%nat /\
   (forall addr0 env1,
      Sol_getAddress solApp path (env w) = (Return addr0, env1) ->
      Common.attempts (sol_derive_run path w) = 1%nat)).
Proof.
  intros Hcall.
  assert (Hcached : cache1 !! path = Some addr).
  { unfold Solana_getAddress in Hcall.
    destruct (cache !! path) as [cached|] eqn:Hc; [now simplify_eq|].
    unfold SolanaLedgerSigner_retry in Hcall.
    destruct (Common.completion (sol_derive_run path w)) as [a|e]; [|discriminate].
    simplify_eq. apply lookup_insert_eq. }
  split; [exact Hcached|]. split.
  { unfold Solana_getAddress. now rewrite Hcached. }
  intros Hmiss. unfold Solana_getAddress in Hcall. rewrite Hmiss in Hcall.
  unfold SolanaLedgerSigner_retry in Hcall.
  destruct (Common.completion (sol_derive_run path w)) as [a|e]; [|discriminate].
  simplify_eq. split; [|split].
  - unfold Common.retry. rewrite retry_trace, derivations_app.
    rewrite derivations_retry_events; [reflexivity|].
    apply (retry_counts (fun _ : W => solApp) None).
  - apply retry_attempts_positive.
  - intros acc env1 Hdev. unfold Common.retry. cbn. unfold external at 1.
    rewrite Hdev. reflexivity.
Qed.

(** A call on a path that is not cached asks the device once per attempt,
    however it ends. *)
Lemma getAddress_miss_asks (this : LedgerSigner) (cache : gmap String.string String.string)
    (w : W) :
  cache !! path this = None ->
  derivations (trace (snd (getAddress elapse utils_getAddress app this cache w))) =
  (derivations (trace w) + Common.attempts (derive_run this w))%nat.
Proof.
  intros Hmiss.
  assert (Htrace : derivations (trace (Common.world_after (derive_run this w))) =
                   (derivations (trace w) + Common.attempts (derive_run this w))%nat).
  { unfold Common.retry. rewrite retry_trace, derivations_app.
    rewrite derivations_retry_events; [reflexivity|].
    apply (retry_counts (fun _ : W => app) (Some errorHook)). }
  unfold getAddress. rewrite Hmiss. unfold LedgerSigner_retry.
  destruct (Common.completion (derive_run this w)) as [account|e]; [|exact Htrace].
  destruct (utils_getAddress (address account)); exact Htrace.
Qed.

(** A call that throws leaves the cache as it was, and the next call
    asks the device again. *)
Lemma getAddress_failed_call (this : LedgerSigner)
    (cache cache1 : gmap String.string String.string) (w w1 : W) e :
  getAddress elapse utils_getAddress app this cache w = (Throw e, cache1, w1) ->
  cache1 = cache /\ cache !! path this = None /\
  (derivations (trace w1) + 1 <=
   derivations (trace (snd (getAddress elapse utils_getAddress app this cache1 w1))))%nat.
Proof.
  intros Hcall.
  assert (Hkept : cache1 = cache /\ cache !! path this = None).
  { unfold getAddress in Hcall.
    destruct (cache !! path this) as [cached|] eqn:Hc; [discriminate Hcall|].
    unfold LedgerSigner_retry in Hcall.
    destruct (Common.completion (derive_run this w)) as [account|e0].
    - destruct (utils_getAddress (address account)); [discriminate Hcall|].
      now simplify_eq.
    - now simplify_eq. }
  destruct Hkept as [-> Hmiss]. split; [reflexivity|]. split; [exact Hmiss|].
  rewrite (getAddress_miss_asks this cache w1 Hmiss).
  pose proof (retry_attempts_positive (fun _ : W => app) (Some errorHook)
                (fun eth => external (GetAddressCall (path this))
                              (Eth_getAddress eth (path this))) 1199 w1).
  unfold Common.retry. lia.
Qed.

Lemma Solana_getAddress_miss_asks (path : String.string) (cache : gmap String.string (list Z))
    (w : W) :
  cache !! path = None ->
  derivations (trace (snd (Solana_getAddress elapse solApp path cache w))) =
  (derivations (trace w) + Common.attempts (sol_derive_run path w))%nat.
Proof.
  intros Hmiss.
  assert (Htrace : derivations (trace (Common.world_after (sol_derive_run path w))) =
                   (derivations (trace w) + Common.attempts (sol_derive_run path w))%nat).
  { unfold Common.retry. rewrite retry_trace, derivations_app.
    rewrite derivations_retry_events; [reflexivity|].
    apply (retry_counts (fun _ : W => solApp) None). }
  unfold Solana_getAddress. rewrite Hmiss. unfold SolanaLedgerSigner_retry.
  destruct (Common.completion (sol_derive_run path w)); exact Htrace.
Qed.

Lemma Solana_getAddress_failed_call (path : String.string)
    (cache cache1 : gmap String.string (list Z)) (w w1 : W) e :
  Solana_getAddress elapse solApp path cache w = (Throw e, cache1, w1) ->
  cache1 = cache /\ cache !! path = None /\
  (derivations (trace w1) + 1 <=
   derivations (trace (snd (Solana_getAddress elapse solApp path cache1 w1))))%nat.
Proof.
  intros Hcall.
  assert (Hkept : cache1 = cache /\ cache !! path = None).
  { unfold Solana_getAddress in Hcall.
    destruct (cache !! path) as [cached|] eqn:Hc; [discriminate Hcall|].
    unfold SolanaLedgerSigner_retry in Hcall.
    destruct (Common.completion (sol_derive_run path w)); [discriminate Hcall|].
    now simplify_eq. }
  destruct Hkept as [-> Hmiss]. split; [reflexivity|]. split; [exact Hmiss|].
  rewrite (Solana_getAddress_miss_asks path cache w1 Hmiss).
  pose proof (retry_attempts_positive (fun _ : W => solApp) None
                (fun sol => external (GetAddressCall path) (Sol_getAddress sol path))
                1199 w1).
  unfold Common.retry. lia.
Qed.

(** *** Typed data *)

Variable resolveNames : Domain -> Types -> Value -> Env -> result (Domain * Value) * Env.
Variable getPayload : Domain -> Types -> Value -> result Payload.
Variable hashDomain : Domain -> result String.string.
Variable hash : Types -> Value -> result String.string.
Variable serialized : LedgerSignature -> result String.string.




Section Protocol.
Variable exec : forall T : Type, (@Eth Env Payload -> @M Env Domain Types Value Payload T)
                                 -> @M Env Domain Types Value Payload T.

(** What the two executors have in common: a run on one device call adds
    that call, once or more, and pauses to the trace. *)
Hypothesis exec_trace :
  forall (T : Type) (ev : Ev) (f : @Eth Env Payload -> Env -> result T * Env) (w : W),
  exists a p, (1 <= a)%nat /\ (p <= a)%nat /\
    trace (snd (exec T (fun eth => external ev (f eth)) w)) =
    trace w ++ retry_events ev a p.

(** The device the executor calls, and what the executor throws when the
    first attempt fails with an error that is not the busy sentinel: this
    error, or the error of the hook for status 27404. *)
Variable exec_app : @Eth Env Payload.

Hypothesis exec_first :
  forall (T : Type) (ev : Ev) (f : @Eth Env Payload -> Env -> result T * Env) (w : W)
         error env2,
    f exec_app (env w) = (Throw error, env2) ->
    Common.is_TransportLocked error = false ->
    fst (exec T (fun eth => external ev (f eth)) w) = Throw error \/
    (statusCode_is error 27404 = true /\
     fst (exec T (fun eth => external ev (f eth)) w) =
     Throw (new_Error MsgNotRunningEthereumApp)).

Local Abbreviation sign :=
  (signTypedData_with resolveNames getPayload hashDomain hash serialized exec).




End Protocol.





End SignerProperties.

(** C8, as it holds — when the first of two calls of [getAddress] in a
    row returns, the address is in the cache under the path string of the
    signer, and the second call returns the same address from the cache
    and leaves the world as it was: no call to the device, no pause. The
    first call, on a path that is not cached yet, asks the device once per
    attempt of [retry], and once only when the device answers the first
    attempt. When the first call throws, the cache is as it was before the
    call, with nothing under the path, and the second call asks the device
    again. The same holds of the Solana signer. *)
Theorem getAddress_second_call_is_cached
    {Env Domain Types Value Payload : Type} (elapse : Z -> Env -> Env)
    (utils_getAddress : string -> result string)
    (app : @Eth Env Payload) (solApp : @SolanaApp Env) :
  (forall (this : LedgerSigner) (cache cache1 : gmap string string)
          (w w1 : @World Env Domain Types Value Payload) (addr : string),
     getAddress elapse utils_getAddress app this cache w = (Return addr, cache1, w1) ->
     cache1 !! path this = Some addr /\
     getAddress elapse utils_getAddress app this cache1 w1 = (Return addr, cache1, w1) /\
     (cache !! path this = None ->
      derivations (trace w1) =
        (derivations (trace w) +
         Common.attempts
           (Common.retry (sleep elapse) (fun _ => app) (Some errorHook)
              (fun eth => external (GetAddressCall (path this))
                            (Eth_getAddress eth (path this))) w))%nat /\
      (forall account env1,
         Eth_getAddress app (path this) (env w) = (Return account, env1) ->
         derivations (trace w1) = (derivations (trace w) + 1)%nat))) /\
  (forall (path : string) (cache cache1 : gmap string (list Z))
          (w w1 : @World Env Domain Types Value Payload) (addr : list Z),
     Solana_getAddress elapse solApp path cache w = (Return addr, cache1, w1) ->
     cache1 !! path = Some addr /\
     Solana_getAddress elapse solApp path cache1 w1 = (Return addr, cache1, w1) /\
     (cache !! path = None ->
      derivations (trace w1) =
        (derivations (trace w) +
         Common.attempts
           (Common.retry (sleep elapse) (fun _ => solApp) None
              (fun sol => external (GetAddressCall path) (Sol_getAddress sol path)) w))%nat /\
      (forall addr0 env1,
         Sol_getAddress solApp path (env w) = (Return addr0, env1) ->
         derivations (trace w1) = (derivations (trace w) + 1)%nat))) /\
  (forall (this : LedgerSigner) (cache cache1 : gmap string string)
          (w w1 : @World Env Domain Types Value Payload) (e : JsError),
     getAddress elapse utils_getAddress app this cache w = (Throw e, cache1, w1) ->
     cache1 = cache /\ cache1 !! path this = None /\
     (derivations (trace w1) + 1 <=
      derivations
        (trace (snd (getAddress elapse utils_getAddress app this cache1 w1))))%nat) /\
  (forall (path : string) (cache cache1 : gmap string (list Z))
          (w w1 : @World Env Domain Types Value Payload) (e : JsError),
     Solana_getAddress elapse solApp path cache w = (Throw e, cache1, w1) ->
     cache1 = cache /\ cache1 !! path = None /\
     (derivations (trace w1) + 1 <=
      derivations (trace (snd (Solana_getAddress elapse solApp path cache1 w1))))%nat).
Proof.
  split; [|split; [|split]].
  - intros this cache cache1 w w1 addr Hcall.
    destruct (getAddress_first_call elapse utils_getAddress app this cache cache1 w w1 addr Hcall)
      as (Hc & Hsecond & Hfirst).
    split; [exact Hc|]. split; [exact Hsecond|].
    intros Hmiss. destruct (Hfirst Hmiss) as (Hcount & _ & Hone).
    split; [exact Hcount|].
    intros account env1 Hdev. rewrite Hcount, (Hone account env1 Hdev). reflexivity.
  - intros path cache cache1 w w1 addr Hcall.
    destruct (Solana_getAddress_first_call elapse solApp path cache cache1 w w1 addr Hcall)
      as (Hc & Hsecond & Hfirst).
    split; [exact Hc|]. split; [exact Hsecond|].
    intros Hmiss. destruct (Hfirst Hmiss) as (Hcount & _ & Hone).
    split; [exact Hcount|].
    intros addr0 env1 Hdev. rewrite Hcount, (Hone addr0 env1 Hdev). reflexivity.
  - intros this cache cache1 w w1 e Hcall.
    destruct (getAddress_failed_call elapse utils_getAddress app this cache cache1 w w1 e
                Hcall) as (Hkept & Hmiss & Hagain).
    split; [exact Hkept|]. split; [now rewrite Hkept | exact Hagain].
  - intros path cache cache1 w w1 e Hcall.
    destruct (Solana_getAddress_failed_call elapse solApp path cache cache1 w w1 e Hcall)
      as (Hkept & Hmiss & Hagain).
    split; [exact Hkept|]. split; [now rewrite Hkept | exact Hagain].
Qed.

Lemma getAddress_second_call_is_cached_witness :
  (exists cache1 w1,
     getAddress Wallet.no_elapse Wallet.checksum
       (Wallet.scripted (Wallet.failing_first 1 Script.busy_error Wallet.account)
          Wallet.signing Wallet.signing)
       (Wallet.signer Wallet.ready)
       ∅ Wallet.start
     = (Return (address Wallet.account), cache1, w1) /\
     cache1 !! "44'/60'/0'/0/0" = Some (address Wallet.account) /\
     getAddress Wallet.no_elapse Wallet.checksum
       (Wallet.scripted (Wallet.failing_first 1 Script.busy_error Wallet.account)
          Wallet.signing Wallet.signing)
       (Wallet.signer Wallet.ready)
       cache1 w1
     = (Return (address Wallet.account), cache1, w1)) /\
  (exists cache1 w1,
     Solana_getAddress Wallet.no_elapse (Wallet.solana (fun _ => Return [1; 2; 3]))
       "44'/501'/0'/0'" ∅ Wallet.start
     = (Return [1; 2; 3], cache1, w1) /\
     cache1 !! "44'/501'/0'/0'" = Some [1; 2; 3]) /\
  (exists cache1 w1,
     getAddress Wallet.no_elapse Wallet.checksum
       (Wallet.scripted (Wallet.failing_first 1 (Script.status_error 27013) Wallet.account)
          Wallet.signing Wallet.signing)
       (Wallet.signer Wallet.ready)
       ∅ Wallet.start
     = (Throw (Script.status_error 27013), cache1, w1) /\
     cache1 = ∅ /\
     (derivations (trace w1) + 1 <=
      derivations
        (trace (snd (getAddress Wallet.no_elapse Wallet.checksum
                       (Wallet.scripted
                          (Wallet.failing_first 1 (Script.status_error 27013) Wallet.account)
                          Wallet.signing Wallet.signing)
                       (Wallet.signer Wallet.ready) cache1 w1))))%nat).
Proof.
  split; [|split].
  - set (r := getAddress Wallet.no_elapse Wallet.checksum
                (Wallet.scripted (Wallet.failing_first 1 Script.busy_error Wallet.account)
                   Wallet.signing Wallet.signing)
                (Wallet.signer Wallet.ready)
                ∅ Wallet.start).
    assert (Hcall : r = (Return (address Wallet.account), snd (fst r), snd r))
      by (vm_compute; reflexivity).
    exists (snd (fst r)), (snd r). split; [exact Hcall|].
    destruct (proj1 (getAddress_second_call_is_cached Wallet.no_elapse Wallet.checksum
                (Wallet.scripted (Wallet.failing_first 1 Script.busy_error Wallet.account)
                   Wallet.signing Wallet.signing)
                (Wallet.solana (fun _ => Return [1; 2; 3])))
              (Wallet.signer Wallet.ready)
              ∅ _ Wallet.start _ (address Wallet.account) Hcall) as (Hc & Hsecond & _).
    split; [exact Hc | exact Hsecond].
  - set (r := Solana_getAddress (Domain:=string) (Types:=string) (Value:=string)
                (Payload:=string) Wallet.no_elapse
                (Wallet.solana (fun _ => Return [1; 2; 3]))
                "44'/501'/0'/0'" ∅ Wallet.start).
    assert (Hcall : r = (Return [1; 2; 3], snd (fst r), snd r))
      by (vm_compute; reflexivity).
    exists (snd (fst r)), (snd r). split; [exact Hcall|].
    exact (proj1 (proj1 (proj2 (getAddress_second_call_is_cached
                   Wallet.no_elapse Wallet.checksum
                   (Wallet.scripted (Wallet.answering Wallet.account)
                      Wallet.signing Wallet.signing)
                   (Wallet.solana (fun _ => Return [1; 2; 3]))))
                 "44'/501'/0'/0'" ∅ _ Wallet.start _ [1; 2; 3] Hcall)).
  - set (r := getAddress Wallet.no_elapse Wallet.checksum
                (Wallet.scripted
                   (Wallet.failing_first 1 (Script.status_error 27013) Wallet.account)
                   Wallet.signing Wallet.signing)
                (Wallet.signer Wallet.ready)
                ∅ Wallet.start).
    assert (Hcall : r = (Throw (Script.status_error 27013), snd (fst r), snd r))
      by (vm_compute; reflexivity).
    exists (snd (fst r)), (snd r). split; [exact Hcall|].
    destruct (proj1 (proj2 (proj2 (getAddress_second_call_is_cached
                Wallet.no_elapse Wallet.checksum
                (Wallet.scripted
                   (Wallet.failing_first 1 (Script.status_error 27013) Wallet.account)
                   Wallet.signing Wallet.signing)
                (Wallet.solana (fun _ => Return [1; 2; 3])))))
              (Wallet.signer Wallet.ready)
              ∅ _ Wallet.start _ (Script.status_error 27013) Hcall)
      as (Hkept & _ & Hagain).
    split; [exact Hkept | exact Hagain].
Defined.

(** C8, as stated, fails in two ways: when the user rejects the first
    request on the device, nothing is cached and the second call asks the
    device again; and when the device is busy at the first attempt, the
    first call alone asks it twice before it stores the address. *)
Lemma derives_at_most_once_fails_after_rejection :
  ~ derives_at_most_once (Domain:=string) (Types:=string) (Value:=string)
      Wallet.no_elapse Wallet.checksum
      (Wallet.scripted (Wallet.failing_first 1 (Script.status_error 27013) Wallet.account)
         Wallet.signing Wallet.signing) /\
  ~ derives_at_most_once (Domain:=string) (Types:=string) (Value:=string)
      Wallet.no_elapse Wallet.checksum
      (Wallet.scripted (Wallet.failing_first 1 Script.busy_error Wallet.account)
         Wallet.signing Wallet.signing).
Proof.
  split; intros H;
    specialize (H (Wallet.signer Wallet.ready)
                  ∅ Wallet.start);
    vm_compute in H; lia.
Qed.







(** * Further properties of the sources *)

(** ** [parseBip32Path]: what the indices are *)

Lemma digit_value_range c :
  Common.is_digit c = true -> 0 <= Common.digit_value c <= 9.
Proof.
  unfold Common.is_digit, Common.digit_value. intros H.
  apply andb_true_iff in H as [H1 H2].
  apply N.leb_le in H1. apply N.leb_le in H2. lia.
Qed.

Lemma decimal_value_nonneg digits :
  Reference.all_digits digits = true -> 0 <= Reference.decimal_value digits.
Proof.
  induction digits as [|c digits IH]; [cbn; lia|].
  rewrite all_digits_cons. intros H. apply andb_true_iff in H as [Hc Hd].
  rewrite (decimal_value_cons c digits Hc).
  pose proof (digit_value_range c Hc). specialize (IH Hd).
  assert (0 <= 10 ^ Z.of_nat (String.length digits)) by (apply Z.pow_nonneg; lia).
  nia.
Qed.

(** What a segment that is accepted stands for. *)
Lemma parse_segment_Return segment index :
  Common.parse_segment segment = Return index ->
  let digits := fst (Reference.strip_apostrophe segment) in
  let hardened := snd (Reference.strip_apostrophe segment) in
  digits <> EmptyString /\ Reference.all_digits digits = true /\
  0 <= Reference.decimal_value digits < 0x80000000 /\
  index = Reference.decimal_value digits + (if hardened then 0x80000000 else 0).
Proof.
  intros Hparse. pose proof (parse_segment_agrees segment) as Hagree.
  rewrite Hparse in Hagree. cbn [Reference.classify_index] in Hagree.
  unfold Reference.parse_segment in Hagree.
  destruct (Reference.strip_apostrophe segment) as [digits hardened]. cbn [fst snd].
  destruct ((0 <? String.length digits)%nat && Reference.all_digits digits) eqn:Hshape;
    [|discriminate].
  apply andb_true_iff in Hshape as [Hlen Hd].
  destruct ((Z.abs (Reference.decimal_value digits) <=? 2 ^ 53 - 1) &&
            (Reference.decimal_value digits <? 0x80000000)) eqn:Hrange; [|discriminate].
  apply andb_true_iff in Hrange as [_ Hlt]. apply Z.ltb_lt in Hlt.
  pose proof (decimal_value_nonneg digits Hd).
  repeat split; try assumption; try lia.
  - destruct digits; [discriminate Hlen | discriminate].
  - destruct hardened; simplify_eq; lia.
Qed.

Lemma map_throwing_Forall2 segments : forall idxs,
  Common.map_throwing Common.parse_segment segments = Return idxs ->
  Forall2 (fun segment index => Common.parse_segment segment = Return index) segments idxs.
Proof.
  induction segments as [|segment segments IH]; intros idxs; cbn [Common.map_throwing].
  - intros [= <-]. constructor.
  - destruct (Common.parse_segment segment) as [index|e] eqn:Hseg; cbn [bind]; [|discriminate].
    destruct (Common.map_throwing Common.parse_segment segments) as [rest|e]; cbn [bind];
      [|discriminate].
    intros [= <-]. constructor; [exact Hseg | now apply IH].
Qed.

Lemma hardened_bit n :
  0 <= n < 0x80000000 ->
  Z.testbit (n + 0x80000000) 31 = true /\ Z.testbit n 31 = false.
Proof.
  intros Hn. split.
  - apply Z.testbit_true; [lia|].
    replace ((n + 0x80000000) / 2 ^ 31) with 1; [reflexivity|].
    apply Z.div_unique with (r := n); lia.
  - apply Z.testbit_false; [lia|].
    rewrite Z.div_small by lia. reflexivity.
Qed.

(** X1 — a path that parses yields one index for each segment of its
    normalized string, in order; every index fits in 32 bits, its lower 31
    bits are the decimal value of the digits of the segment, and its top
    bit is set exactly when the segment ends with an apostrophe. *)
Theorem parseBip32Path_indices (path : string) (parsed : Common.Bip32Path) :
  Common.parseBip32Path path = Return parsed ->
  path <> "m" ->
  Forall2
    (fun segment index =>
       0 <= index < 2 ^ 32 /\
       Z.testbit index 31 = snd (Reference.strip_apostrophe segment) /\
       Z.land index 0x7fffffff =
         Reference.decimal_value (fst (Reference.strip_apostrophe segment)))
    (Common.split_slash (Common.normalized parsed)) (Common.indices parsed).
Proof.
  intros Hparse Hne.
  destruct (parseBip32Path_Return_shape path parsed Hparse) as [[-> _] | [Hpath _]];
    [contradiction|].
  unfold Common.parseBip32Path in Hparse. rewrite Hpath in Hparse.
  change (Common.test_starts_with_m (String "m" (String "/" (Common.normalized parsed))))
    with true in Hparse.
  change (Common.test_is_m (String "m" (String "/" (Common.normalized parsed))))
    with false in Hparse.
  cbn [negb] in Hparse. cbv iota in Hparse.
  change (Common.replace_leading_m_slash
            (String "m" (String "/" (Common.normalized parsed))))
    with (Common.normalized parsed) in Hparse.
  destruct (Common.map_throwing Common.parse_segment
              (Common.split_slash (Common.normalized parsed))) as [idxs|e] eqn:Hmap;
    [|discriminate].
  cbn [bind] in Hparse. injection Hparse as <-. cbn [Common.indices Common.normalized] in *.
  apply map_throwing_Forall2 in Hmap.
  eapply Forall2_impl; [exact Hmap|].
  intros segment index Hseg. cbn beta.
  destruct (parse_segment_Return segment index Hseg) as (_ & _ & Hrange & ->).
  destruct (hardened_bit _ Hrange) as [Hset Hclear].
  destruct (snd (Reference.strip_apostrophe segment)).
  - split; [lia|]. split; [exact Hset|].
    change 0x7fffffff with (Z.ones 31). rewrite Z.land_ones by lia.
    change (2 ^ 31) with 0x80000000.
    rewrite <- (Z.mul_1_l 0x80000000) at 1. rewrite Z.mod_add by lia.
    apply Z.mod_small. lia.
  - rewrite Z.add_0_r. split; [lia|]. split; [exact Hclear|].
    change 0x7fffffff with (Z.ones 31). rewrite Z.land_ones by lia.
    apply Z.mod_small. change (2 ^ 31) with 0x80000000. lia.
Qed.

Lemma parseBip32Path_indices_witness :
  Forall2
    (fun segment index =>
       0 <= index < 2 ^ 32 /\
       Z.testbit index 31 = snd (Reference.strip_apostrophe segment) /\
       Z.land index 0x7fffffff =
         Reference.decimal_value (fst (Reference.strip_apostrophe segment)))
    (Common.split_slash (Common.normalized (Common.mkBip32Path "44'/7" [0x8000002c; 7])))
    (Common.indices (Common.mkBip32Path "44'/7" [0x8000002c; 7])).
Proof.
  apply (parseBip32Path_indices "m/44'/7"); [reflexivity | discriminate].
Defined.

(** ** [parseBip32Path]: leading zeros *)

Lemma split_slash_cons c s :
  Ascii.eqb c "/" = false ->
  exists part parts,
    Common.split_slash s = part :: parts /\
    Common.split_slash (String c s) = String c part :: parts.
Proof.
  intros Hc. cbn [Common.split_slash]. rewrite Hc.
  destruct s as [|c' s'].
  - exists EmptyString, []. split; reflexivity.
  - cbn [Common.split_slash].
    destruct (Ascii.eqb c' "/"); [eauto|].
    destruct (Common.split_slash s'); eauto.
Qed.

Lemma parse_segment_leading_zero segment index :
  Common.parse_segment segment = Return index ->
  Common.parse_segment (String "0" segment) = Return index.
Proof.
  unfold Common.parse_segment, Common.exec_child_index.
  cbn [Common.span_digits]. change (Common.is_digit "0") with true. cbv iota.
  destruct (Common.span_digits segment) as [m1 rest].
  destruct m1 as [|d m1]; [discriminate|].
  assert (Hnum : Common.to_number (String "0" (String d m1)) =
                 Common.to_number (String d m1)) by reflexivity.
  destruct rest as [|q rest].
  - rewrite Hnum. trivial.
  - destruct q as [[] [] [] [] [] [] [] []]; try discriminate.
    destruct rest; [|discriminate]. rewrite Hnum. trivial.
Qed.

(** X2 — leading zeros are accepted and kept: a zero put in front of the
    first segment of a path that parses gives a path that parses to the
    same indices, with a normalized string that is one character longer.
    The normalized string is therefore not determined by the indices. *)
Theorem parseBip32Path_leading_zero (rest : string) (parsed : Common.Bip32Path) :
  Common.parseBip32Path (String "m" (String "/" rest)) = Return parsed ->
  Common.parseBip32Path (String "m" (String "/" (String "0" rest))) =
    Return {| Common.normalized := String "0" (Common.normalized parsed);
              Common.indices := Common.indices parsed |}.
Proof.
  unfold Common.parseBip32Path.
  cbn [Common.test_starts_with_m Common.test_is_m Common.replace_leading_m_slash negb].
  destruct (split_slash_cons "0" rest eq_refl) as (part & parts & Hrest & Hzero).
  rewrite Hrest, Hzero. cbn [Common.map_throwing].
  destruct (Common.parse_segment part) as [index|e] eqn:Hpart; cbn [bind]; [|discriminate].
  rewrite (parse_segment_leading_zero part index Hpart). cbn [bind].
  destruct (Common.map_throwing Common.parse_segment parts); cbn [bind]; [|discriminate].
  intros [= <-]. reflexivity.
Qed.

Lemma parseBip32Path_leading_zero_witness :
  Common.parseBip32Path "m/044'/60'" =
    Return {| Common.normalized := "044'/60'";
              Common.indices := [0x8000002c; 0x8000003c] |}.
Proof.
  apply (parseBip32Path_leading_zero "44'/60'"
           (Common.mkBip32Path "44'/60'" [0x8000002c; 0x8000003c])).
  reflexivity.
Defined.

(** ** [retry]: every way a run can end *)

Section RetryRuns.
Import Common.
Context {World App Result : Type}.
Variable sleep : Z -> World -> World.
Variable container_app : World -> App.
Variable errorHook : option (JsError -> result unit).
Variable operation : App -> World -> result Result * World.

Local Abbreviation loop := (retry_loop sleep container_app errorHook operation).
Local Abbreviation at_ := (world_at sleep container_app operation).
Local Abbreviation try_ := (attempt container_app operation).
Local Abbreviation retried := (retried_at sleep container_app errorHook operation).

Lemma retried_at_succ i w :
  retried i (next_attempt_world sleep container_app operation w) -> retried (S i) w.
Proof.
  intros (e & He & Hl & Hh). exists e. repeat split; try assumption.
  unfold outcome_at in *. unfold world_at in *. rewrite Nat.iter_succ_r. exact He.
Qed.

Lemma retried_at_shift w :
  retried 0%nat w ->
  forall k, (forall i, (i < k)%nat ->
                       retried i (next_attempt_world sleep container_app operation w)) ->
  forall i, (i < S k)%nat -> retried i w.
Proof.
  intros H0 k Hk [|i] Hi; [exact H0|]. apply retried_at_succ, Hk. lia.
Qed.

(** The loop with [n] iterations left either stops at an attempt [k < n],
    all attempts before it having been retried, or finds all [n] attempts
    busy and runs out. *)
Lemma retry_loop_cases n : forall w,
  (exists k, (k < n)%nat /\
     (forall i, (i < k)%nat -> retried i w) /\
     attempts (loop n w) = S k /\ pauses (loop n w) = k /\
     world_after (loop n w) = snd (try_ (at_ k w)) /\
     match fst (try_ (at_ k w)) with
     | Return res => completion (loop n w) = Return res
     | Throw e =>
         match run_hook errorHook e with
         | Throw h => completion (loop n w) = Throw h
         | Return _ => is_TransportLocked e = false /\ completion (loop n w) = Throw e
         end
     end) \/
  ((forall i, (i < n)%nat -> retried i w) /\
   loop n w = mkRun (Throw (new_Error MsgTimeout)) (at_ n w) n n).
Proof.
  induction n as [|n IH]; intros w.
  - right. split; [intros i Hi; lia | reflexivity].
  - cbn [retry_loop]. fold (try_ w).
    destruct (try_ w) as [[res|e] w1] eqn:Htry.
    + left. exists 0%nat. change (at_ 0 w) with w. rewrite Htry. cbn.
      repeat split; try lia; try reflexivity.
    + destruct (run_hook errorHook e) as [[]|h] eqn:Hhook.
      * destruct (is_TransportLocked e) eqn:Hlocked; cbn [negb].
        -- assert (H0 : retried 0%nat w).
           { exists e. unfold outcome_at. change (at_ 0 w) with w. rewrite Htry.
             repeat split; assumption. }
           assert (Hnext : next_attempt_world sleep container_app operation w =
                           sleep 100 w1).
           { unfold next_attempt_world. fold (try_ w). now rewrite Htry. }
           destruct (IH (sleep 100 w1)) as
             [(k & Hk & Hretried & Ha & Hp & Hw & Hend) | [Hall Hrun]].
           ++ left. exists (S k). rewrite world_at_succ, Hnext.
              cbn [after_pause attempts pauses world_after completion].
              rewrite Ha, Hp, Hw.
              repeat split; try lia; try exact Hend.
              apply retried_at_shift; [exact H0|]. now rewrite Hnext.
           ++ right. split.
              ** apply retried_at_shift; [exact H0|]. now rewrite Hnext.
              ** rewrite Hrun, world_at_succ, Hnext. reflexivity.
        -- left. exists 0%nat. change (at_ 0 w) with w. rewrite Htry. cbn.
           rewrite Hhook.
           repeat split; try lia; try reflexivity; try assumption.
      * left. exists 0%nat. change (at_ 0 w) with w. rewrite Htry. cbn.
        rewrite Hhook.
        repeat split; try lia; try reflexivity.
Qed.

End RetryRuns.

(** X3 — every run of [retry] ends in one of two ways. Either it stops at
    an attempt [k < 1200], all earlier attempts having failed with the busy
    sentinel and passed the hook: then it made [k + 1] attempts and [k]
    pauses, and it returns the value of attempt [k], or throws what the
    hook threw on its error, or throws its error, which is then not the
    busy sentinel. Or all 1200 attempts were retried and it throws the
    timeout error after 1200 attempts and 1200 pauses. *)
Theorem retry_run_cases {World App Result : Type}
    (sleep : Z -> World -> World) (container_app : World -> App)
    (errorHook : option (JsError -> result unit))
    (operation : App -> World -> result Result * World) (w : World) :
  let run := Common.retry sleep container_app errorHook operation w in
  (exists k, (k < 1200)%nat /\
     (forall i, (i < k)%nat ->
                Common.retried_at sleep container_app errorHook operation i w) /\
     Common.attempts run = S k /\ Common.pauses run = k /\
     Common.world_after run =
       snd (Common.attempt container_app operation
              (Common.world_at sleep container_app operation k w)) /\
     match Common.outcome_at sleep container_app operation k w with
     | Return res => Common.completion run = Return res
     | Throw e =>
         match Common.run_hook errorHook e with
         | Throw h => Common.completion run = Throw h
         | Return _ =>
             Common.is_TransportLocked e = false /\ Common.completion run = Throw e
         end
     end) \/
  ((forall i, (i < 1200)%nat ->
              Common.retried_at sleep container_app errorHook operation i w) /\
   run = Common.mkRun (Throw (new_Error MsgTimeout))
           (Common.world_at sleep container_app operation 1200 w) 1200 1200).
Proof.
  exact (retry_loop_cases sleep container_app errorHook operation 1200 w).
Qed.

(** ** A retried device call, as the outside sees it *)

Section SignerRuns.
Context {Env Domain Types Value Payload : Type}.
Variable elapse : Z -> Env -> Env.
Local Close Scope string_scope.

Local Abbreviation Ev := (@Event Domain Types Value Payload).
Local Abbreviation W := (@World Env Domain Types Value Payload).

Lemma slept_cons (ev : Ev) t : slept (ev :: t) = slept [ev] + slept t.
Proof. unfold slept. destruct ev; cbn [fold_right]; lia. Qed.

Lemma slept_app (t1 t2 : list Ev) : slept (t1 ++ t2) = slept t1 + slept t2.
Proof.
  induction t1 as [|ev t1 IH]; [reflexivity|].
  rewrite <- app_comm_cons, (slept_cons ev (t1 ++ t2)), (slept_cons ev t1), IH. lia.
Qed.

Lemma slept_retry_events (ev : Ev) a p :
  slept [ev] = 0 -> slept (retry_events ev a p) = 100 * Z.of_nat p.
Proof.
  intros Hev. unfold retry_events. rewrite slept_app.
  assert (Hcalls : forall n, slept (repeat ev n) = 0).
  { induction n as [|n IH]; [reflexivity|].
    cbn [repeat]. rewrite slept_cons, Hev, IH. reflexivity. }
  rewrite Hcalls, Z.add_0_r.
  induction p as [|p IH]; [reflexivity|].
  cbn [repeat concat]. rewrite slept_app, IH.
  rewrite (slept_cons ev [SleepCall 100]), Hev. cbn. lia.
Qed.

(** X4 — what a run of [retry] on one device call looks like from
    outside: the trace grows by that call and pauses of 100 ms in turn and
    by nothing else, there are between 1 and 1200 calls, a pause follows
    every call but possibly the last, and the pauses add up to 120 seconds
    at most. *)
Theorem retry_device_call_budget {App T : Type} (app : W -> App)
    (hook : option (JsError -> result unit)) (ev : Ev)
    (f : App -> Env -> result T * Env) (w : W) :
  slept [ev] = 0 ->
  let run := Common.retry (sleep elapse) app hook (fun a => external ev (f a)) w in
  trace (Common.world_after run) =
    trace w ++ retry_events ev (Common.attempts run) (Common.pauses run) /\
  (1 <= Common.attempts run <= 1200)%nat /\
  (Common.pauses run <= Common.attempts run <= S (Common.pauses run))%nat /\
  slept (trace (Common.world_after run)) =
    slept (trace w) + 100 * Z.of_nat (Common.pauses run) /\
  slept (trace (Common.world_after run)) - slept (trace w) <= 120000.
Proof.
  intros Hev run.
  pose proof (retry_trace elapse app hook ev f 1200 w) as Htrace.
  pose proof (retry_counts elapse app hook (fun a => external ev (f a)) 1200 w)
    as [Hpauses Hmost].
  pose proof (retry_attempts_positive elapse app hook
                (fun a => external ev (f a)) 1199 w) as Hleast.
  cbv zeta in Htrace, Hpauses, Hmost. fold (Common.retry (sleep elapse) app hook
    (fun a => external ev (f a)) w) in Htrace, Hpauses, Hmost, Hleast.
  fold run in Htrace, Hpauses, Hmost, Hleast.
  assert (Hslept : slept (trace (Common.world_after run)) =
                   slept (trace w) + 100 * Z.of_nat (Common.pauses run)).
  { rewrite Htrace, slept_app, slept_retry_events by exact Hev. reflexivity. }
  repeat split; try assumption; try lia.
Qed.

End SignerRuns.

Lemma retry_device_call_budget_witness :
  let run := Common.retry (sleep Wallet.no_elapse) (fun _ => Wallet.ready)
               (Some errorHook)
               (fun eth => external (GetAddressCall "44'/60'/0'/0/0")
                             (Eth_getAddress eth "44'/60'/0'/0/0")) Wallet.start in
  slept (trace (Common.world_after run)) - slept (trace Wallet.start) <= 120000.
Proof.
  intros run.
  apply (retry_device_call_budget Wallet.no_elapse (fun _ => Wallet.ready)
           (Some errorHook) (GetAddressCall "44'/60'/0'/0/0")
           (fun eth => Eth_getAddress eth "44'/60'/0'/0/0") Wallet.start).
  reflexivity.
Defined.

(** ** The earlier signers against the current ones *)

(** A normalized string of the parser is empty or begins with a digit. *)
Lemma normalized_begins_with_digit path parsed :
  Common.parseBip32Path path = Return parsed ->
  Common.normalized parsed = EmptyString \/
  exists c rest, Common.normalized parsed = String c rest /\ Common.is_digit c = true.
Proof.
  intros Hparse.
  destruct (parseBip32Path_Return_shape path parsed Hparse) as [[_ ->] | [Hpath _]];
    [left; reflexivity|].
  unfold Common.parseBip32Path in Hparse. rewrite Hpath in Hparse.
  change (Common.test_starts_with_m (String "m" (String "/" (Common.normalized parsed))))
    with true in Hparse.
  change (Common.test_is_m (String "m" (String "/" (Common.normalized parsed))))
    with false in Hparse.
  cbn [negb] in Hparse. cbv iota in Hparse.
  change (Common.replace_leading_m_slash
            (String "m" (String "/" (Common.normalized parsed))))
    with (Common.normalized parsed) in Hparse.
  destruct (Common.normalized parsed) as [|c rest]; [left; reflexivity|].
  right. exists c, rest. split; [reflexivity|].
  cbn [Common.split_slash] in Hparse.
  destruct (Ascii.eqb c "/") eqn:Hslash.
  - cbn in Hparse. discriminate Hparse.
  - assert (Hfirst : exists part parts,
               match Common.split_slash rest with
               | part :: parts => String c part :: parts
               | [] => [String c EmptyString]
               end = String c part :: parts)
      by (destruct (Common.split_slash rest); eauto).
    destruct Hfirst as (part & parts & Hfirst). rewrite Hfirst in Hparse.
    cbn [Common.map_throwing] in Hparse.
    destruct (Common.is_digit c) eqn:Hdigit; [reflexivity|].
    unfold Common.parse_segment, Common.exec_child_index in Hparse.
    cbn [Common.span_digits] in Hparse. rewrite Hdigit in Hparse.
    cbn in Hparse. discriminate Hparse.
Qed.

Lemma normalized_not_inherited path parsed :
  Common.parseBip32Path path = Return parsed ->
  inherited (Common.normalized parsed) = false.
Proof.
  intros Hparse.
  destruct (normalized_begins_with_digit path parsed Hparse)
    as [-> | (c & rest & -> & Hdigit)]; [reflexivity|].
  destruct c as [[] [] [] [] [] [] [] []]; try discriminate Hdigit; reflexivity.
Qed.

Section EarlierSignerProperties.
Context {Env Domain Types Value Payload : Type}.
Variable elapse : Z -> Env -> Env.
Variable utils_getAddress : string -> result string.
Local Close Scope string_scope.

Local Abbreviation Ev := (@Event Domain Types Value Payload).
Local Abbreviation W := (@World Env Domain Types Value Payload).

(** X5 — the private [_retry] of the earlier ethers-v6 signer is the
    [retry] of the common package on [this.ethApp] with no hook: the same
    completion, the same world, the same numbers of attempts and pauses. *)
Theorem _retry_is_retry_without_hook {T : Type} (this : @LedgerSigner Env Payload)
    (operation : @Eth Env Payload -> W -> result T * W) (w : W) :
  _retry_loop elapse this operation 1200 w =
    Common.retry (sleep elapse) (fun _ => ethApp this) None operation w /\
  _retry elapse this operation w =
    (Common.completion
       (Common.retry (sleep elapse) (fun _ => ethApp this) None operation w),
     Common.world_after
       (Common.retry (sleep elapse) (fun _ => ethApp this) None operation w)).
Proof.
  unfold _retry, Common.retry. cbv zeta.
  rewrite (_retry_loop_retry_loop elapse this operation 1200 w). split; reflexivity.
Qed.

Lemma Solana_retry_loop_legacy_retry_loop {T : Type}
    (this : @SolanaLedgerSigner_legacy Env)
    (operation : @SolanaApp Env -> W -> result T * W) n : forall w,
  Solana_retry_loop_legacy elapse this operation n w =
  Common.retry_loop (sleep elapse) (fun _ => solApp this) None operation n w.
Proof.
  induction n as [|n IH]; intros w; [reflexivity|].
  cbn [Solana_retry_loop_legacy Common.retry_loop Common.run_hook].
  destruct (operation (solApp this) w) as [[res|error] w1]; [reflexivity|].
  destruct (negb (Common.is_TransportLocked error)); [reflexivity|].
  now rewrite IH.
Qed.

(** X6 — [getAddress] of the earlier Solana signer, which retries with
    its own [_retry] on the application object of the instance, gives what
    [getAddress] of the current signer gives when the static application
    object is that same object, the same result, cache and world, on every
    path that is not a property name of [Object.prototype]. On such a
    name, which the earlier [create] lets through unparsed, the read of the
    cache finds the inherited property: the earlier [getAddress] throws the
    type error of [Buffer.copyBytesFrom] and the device is not asked. The
    current signer cannot hold such a path: no normalized string of the
    parser is one of these names. *)
Theorem Solana_getAddress_legacy_is_current (this : @SolanaLedgerSigner_legacy Env)
    (addressCache : gmap string (list Z)) (w : W) :
  (inherited (solana_path this) = false ->
   Solana_getAddress_legacy elapse this addressCache w =
   Solana_getAddress elapse (solApp this) (solana_path this) addressCache w) /\
  (inherited (solana_path this) = true ->
   addressCache !! solana_path this = None ->
   Solana_getAddress_legacy elapse this addressCache w =
   (Throw invalid_arg_type, addressCache, w)) /\
  (forall path parsed,
      Common.parseBip32Path path = Return parsed ->
      inherited (Common.normalized parsed) = false).
Proof.
  split; [|split].
  - intros Hown.
    unfold Solana_getAddress_legacy, Solana_getAddress, Solana_retry_legacy,
      SolanaLedgerSigner_retry, Common.retry.
    destruct (addressCache !! solana_path this); [reflexivity|].
    rewrite Hown. cbv zeta. rewrite Solana_retry_loop_legacy_retry_loop. reflexivity.
  - intros Hinherited Hmiss. unfold Solana_getAddress_legacy.
    now rewrite Hmiss, Hinherited.
  - exact normalized_not_inherited.
Qed.

(** The [catch] of the earlier [getAddress], as a function of what was
    thrown. *)
Lemma hook_or_catch {App T : Type} (app : W -> App)
    (operation : App -> W -> result T * W) :
  (forall w0 e, fst (operation (app w0) w0) = Throw e ->
                Common.is_TransportLocked e = true -> statusCode_is e 27404 = false) ->
  forall n w,
    let hooked := Common.retry_loop (sleep elapse) app (Some errorHook) operation n w in
    let plain := Common.retry_loop (sleep elapse) app None operation n w in
    Common.world_after hooked = Common.world_after plain /\
    Common.attempts hooked = Common.attempts plain /\
    Common.pauses hooked = Common.pauses plain /\
    Common.completion hooked =
      match Common.completion plain with
      | Return res => Return res
      | Throw e => if statusCode_is e 27404 then Throw (new_Error MsgNotRunningEthereumApp)
                   else Throw e
      end.
Proof.
  intros Hbusy. induction n as [|n IH]; intros w.
  - cbn. repeat split; reflexivity.
  - cbn [Common.retry_loop Common.run_hook]. cbv zeta.
    pose proof (Hbusy w) as Hop.
    destruct (operation (app w) w) as [[res|e] w1]; cbn [fst] in Hop.
    + cbn. repeat split; reflexivity.
    + specialize (Hop e eq_refl).
      change (errorHook e) with
        (if statusCode_is e 27404 then Throw (new_Error MsgNotRunningEthereumApp)
         else Return tt).
      destruct (Common.is_TransportLocked e) eqn:Hlocked; cbn [negb].
      * rewrite (Hop eq_refl). cbv iota.
        destruct (IH (sleep elapse 100 w1)) as (Hw & Ha & Hp & Hc).
        cbn [Common.after_pause Common.world_after Common.attempts Common.pauses
             Common.completion].
        rewrite Hw, Ha, Hp, Hc. repeat split; reflexivity.
      * destruct (statusCode_is e 27404) eqn:Hcode; cbn; rewrite ?Hcode;
          repeat split; reflexivity.
Qed.

(** X7 — moving the test for status 27404 from the [catch] of
    [getAddress] into the hook of [retry] kept what [getAddress] does on a
    path that is not cached, as long as no rejection of the device is both
    the busy sentinel and of status 27404, and the checksum function throws
    no error of that status: the earlier and the current [getAddress] then
    complete alike and leave the same world. *)
Theorem getAddress_legacy_agrees (this : @LedgerSigner Env Payload)
    (cache : gmap string string) (w : W) :
  (forall env0 e env1,
      Eth_getAddress (ethApp this) (path this) env0 = (Throw e, env1) ->
      Common.is_TransportLocked e = true -> statusCode_is e 27404 = false) ->
  (forall a e, utils_getAddress a = Throw e -> statusCode_is e 27404 = false) ->
  cache !! path this = None ->
  getAddress_legacy elapse utils_getAddress this w =
    (fst (fst (getAddress elapse utils_getAddress (ethApp this) this cache w)),
     snd (getAddress elapse utils_getAddress (ethApp this) this cache w)).
Proof.
  intros Hbusy Hsum Hmiss.
  pose proof (hook_or_catch (fun _ : W => ethApp this)
                (fun eth => external (GetAddressCall (path this))
                              (Eth_getAddress eth (path this)))) as Hloops.
  specialize (Hloops ltac:(
    intros w0 e He; unfold external in He;
    destruct (Eth_getAddress (ethApp this) (path this) (env w0)) as [r env1] eqn:Hcall;
    cbn [fst] in He; subst r; exact (Hbusy _ _ _ Hcall)) 1200%nat w).
  cbv zeta in Hloops.
  unfold getAddress, getAddress_legacy, try_catch, mbind, _retry, LedgerSigner_retry,
    Common.retry, throw.
  rewrite Hmiss. cbv zeta.
  rewrite (_retry_loop_retry_loop elapse this _ 1200 w).
  set (hooked := Common.retry_loop _ _ (Some errorHook) _ _ _) in *.
  set (plain := Common.retry_loop _ _ None _ _ _) in *.
  destruct Hloops as (Hw & _ & _ & Hc).
  clearbody hooked plain.
  destruct hooked as [c1 w1 a1 p1], plain as [c0 w0 a0 p0].
  cbn [Common.completion Common.world_after] in *. subst w1 c1.
  destruct c0 as [account|e].
  - destruct (utils_getAddress (address account)) as [addr|e] eqn:Hchecksum;
      cbn [fst snd]; [reflexivity|].
    now rewrite (Hsum _ _ Hchecksum).
  - destruct (statusCode_is e 27404); reflexivity.
Qed.

(** X8 — the earlier [getAddress] has no memory: every call, a repeated
    one included, asks the device for the address at least once. *)
Theorem getAddress_legacy_asks_device (this : @LedgerSigner Env Payload) (w : W) :
  (derivations (trace w) + 1 <=
   derivations (trace (snd (getAddress_legacy elapse utils_getAddress this w))))%nat.
Proof.
  pose proof (retry_trace elapse (fun _ : W => ethApp this) None
                (GetAddressCall (path this))
                (fun eth => Eth_getAddress eth (path this)) 1200 w) as Htrace.
  pose proof (retry_counts elapse (fun _ : W => ethApp this) None
                (fun eth => external (GetAddressCall (path this))
                              (Eth_getAddress eth (path this))) 1200 w) as [Hpauses _].
  pose proof (retry_attempts_positive elapse (fun _ : W => ethApp this) None
                (fun eth => external (GetAddressCall (path this))
                              (Eth_getAddress eth (path this))) 1199 w) as Hleast.
  cbv zeta in Htrace, Hpauses.
  unfold getAddress_legacy, try_catch, mbind, _retry, throw. cbv zeta.
  rewrite (_retry_loop_retry_loop elapse this _ 1200 w).
  set (run := Common.retry_loop _ _ None _ _ _) in *. clearbody run.
  destruct run as [c w1 a p]. cbn [Common.completion Common.world_after
    Common.attempts Common.pauses] in *.
  assert (Hafter : derivations (trace w1) = (derivations (trace w) + a)%nat).
  { rewrite Htrace, derivations_app, derivations_retry_events by lia. reflexivity. }
  destruct c as [account|e].
  - destruct (utils_getAddress (address account)) as [addr|e]; cbn [snd].
    + lia.
    + destruct (statusCode_is e 27404); cbn [snd]; lia.
  - destruct (statusCode_is e 27404); cbn [snd]; lia.
Qed.

(** X9 — the address cache only grows, and only where it must: a call of
    [getAddress] keeps every entry there is, touches no key but the path of
    the signer, leaves the cache as it is when it throws, and holds the
    address it returns under that path afterwards; on a hit it leaves the
    world untouched. *)
Theorem getAddress_cache_grows (app : @Eth Env Payload) (this : @LedgerSigner Env Payload)
    (cache : gmap string string) (w : W) :
  let call := getAddress elapse utils_getAddress app this cache w in
  (forall key addr, cache !! key = Some addr -> snd (fst call) !! key = Some addr) /\
  (forall key, key <> path this -> snd (fst call) !! key = cache !! key) /\
  (forall e, fst (fst call) = Throw e -> snd (fst call) = cache) /\
  (forall addr, fst (fst call) = Return addr -> snd (fst call) !! path this = Some addr) /\
  (forall addr, cache !! path this = Some addr -> call = (Return addr, cache, w)).
Proof.
  unfold getAddress. cbv zeta.
  destruct (cache !! path this) as [cached|] eqn:Hlookup.
  - cbn [fst snd]. repeat split; try congruence.
  - destruct (LedgerSigner_retry _ _ _ _) as [[account|e] w1]; cbn [fst snd].
    + destruct (utils_getAddress (address account)) as [addr|e]; cbn [fst snd].
      * repeat split; try congruence.
        -- intros key a Hkey. rewrite lookup_insert_ne; congruence.
        -- intros key Hkey. now rewrite lookup_insert_ne.
        -- intros a [= <-]. apply lookup_insert_eq.
      * repeat split; congruence.
    + repeat split; congruence.
Qed.

End EarlierSignerProperties.

Lemma getAddress_legacy_agrees_witness :
  getAddress_legacy (Domain := string) (Types := string) (Value := string)
    Wallet.no_elapse Wallet.checksum
    (Wallet.signer
       (Wallet.scripted (Wallet.failing_first 2 Script.busy_error Wallet.account)
          Wallet.signing Wallet.signing)) Wallet.start =
  (Return (address Wallet.account),
   {| env := 3%nat;
      trace := [GetAddressCall "44'/60'/0'/0/0"; SleepCall 100;
                GetAddressCall "44'/60'/0'/0/0"; SleepCall 100;
                GetAddressCall "44'/60'/0'/0/0"] |}).
Proof.
  rewrite (getAddress_legacy_agrees Wallet.no_elapse Wallet.checksum _ ∅ Wallet.start).
  - vm_compute. reflexivity.
  - intros env0 e env1 Hcall _. cbn in Hcall. unfold Wallet.failing_first in Hcall.
    destruct (env0 <? 2)%nat; inversion Hcall. reflexivity.
  - intros a e Hsum. discriminate Hsum.
  - reflexivity.
Defined.

(** ** [create]: the path of the signer, and how long a call can take *)

Section CallsProperties.
Import Session Calls.
#[local] Set Warnings "-clear-no-such-hyp".

Local Ltac inserted :=
  repeat match goal with
    | H : <[_ := _]> _ !! _ = Some _ |- _ =>
        apply list_lookup_insert_Some in H as [(? & ? & ?) | (? & ?)]
    end; simplify_eq.

Lemma init_tracks paths c k :
  callers (init paths) !! c = Some k -> tracks paths c k.
Proof.
  unfold init. cbn. rewrite list_lookup_fmap. intros H.
  apply fmap_Some in H as (path & Hpath & ->). exists path. split; [exact Hpath | reflexivity].
Qed.

Lemma step_tracks paths l p p' :
  (forall c k, callers p !! c = Some k -> tracks paths c k) ->
  step l p = Some p' ->
  forall c k, callers p' !! c = Some k -> tracks paths c k.
Proof.
  intros Hall Hstep c0 k0 Hk0.
  unfold step, set_caller in Hstep. repeat case_match; simplify_eq; cbn in Hk0.
  all: inserted; [|solve [eauto]].
  all: match goal with
       | H : callers _ !! _ = Some _ |- _ =>
           destruct (Hall _ _ H) as (argument & Hargument & Hkept)
       end.
  all: exists argument; split; [exact Hargument|]; cbn in *; subst; eauto.
  all: destruct Hkept as (parsed & ? & ?); eauto.
Qed.

Lemma run_tracks paths schedule : forall p p',
  (forall c k, callers p !! c = Some k -> tracks paths c k) ->
  run schedule p = Some p' ->
  forall c k, callers p' !! c = Some k -> tracks paths c k.
Proof.
  induction schedule as [|l schedule IH]; intros p p' Hall Hrun; cbn in Hrun.
  - now simplify_eq.
  - destruct (step l p) as [p1|] eqn:Hstep; [|discriminate].
    eapply IH; [|exact Hrun]. eapply step_tracks; eassumption.
Qed.

Lemma steps_of_cons c l schedule :
  steps_of c (l :: schedule) =
  ((if (label_of l =? c)%nat then 1 else 0) + steps_of c schedule)%nat.
Proof. unfold steps_of. cbn [List.filter]. destruct (label_of l =? c)%nat; reflexivity. Qed.

(** A step of a caller uses up some of the budget of that caller and
    leaves the others where they are. *)
Lemma step_budget paths l p p' c k :
  Inv paths p -> step l p = Some p' -> callers p !! c = Some k ->
  exists k', callers p' !! c = Some k' /\
             ((if (label_of l =? c)%nat then 1 else 0) + budget k' <= budget k)%nat.
Proof.
  intros HInv Hstep Hk.
  destruct (Nat.eqb_spec (label_of l) c) as [<-|Hne].
  - pose proof (inv_sleep _ _ HInv) as Hsleep.
    pose proof (lookup_lt_Some _ _ _ Hk) as Hlen.
    unfold step, set_caller in Hstep.
    destruct l; cbn [label_of] in *; rewrite Hk in Hstep.
    all: repeat case_match; simplify_eq; cbn [callers].
    all: eexists; (split; [apply list_lookup_insert_eq; exact Hlen|]); cbn [budget].
    all: try lia.
    all: repeat match goal with
           | H : (_ =? _)%nat = false |- _ => apply Nat.eqb_neq in H
           | H : (_ <=? _)%nat = true |- _ => apply Nat.leb_le in H
           | H : (_ <=? _)%nat = false |- _ => apply Nat.leb_gt in H
           | H : (_ <? _)%nat = true |- _ => apply Nat.ltb_lt in H
           | H : (_ <? _)%nat = false |- _ => apply Nat.ltb_ge in H
           end.
    all: try lia.
    all: specialize (Hsleep _ _ _ Hk); lia.
  - destruct (step_frame l p p' Hstep) as [Hframe _].
    exists k. rewrite Hframe by congruence. split; [exact Hk | lia].
Qed.

Lemma run_budget paths schedule : forall p p' c k,
  Inv paths p -> run schedule p = Some p' -> callers p !! c = Some k ->
  exists k', callers p' !! c = Some k' /\
             (steps_of c schedule + budget k' <= budget k)%nat.
Proof.
  induction schedule as [|l schedule IH]; intros p p' c k HInv Hrun Hk; cbn in Hrun.
  - simplify_eq. exists k. split; [exact Hk | cbn; lia].
  - destruct (step l p) as [p1|] eqn:Hstep; [|discriminate].
    destruct (step_budget paths l p p1 c k HInv Hstep Hk) as (k1 & Hk1 & Hle1).
    destruct (IH p1 p' c k1 (step_Inv paths l p p1 HInv Hstep) Hrun Hk1)
      as (k' & Hk' & Hle).
    exists k'. split; [exact Hk'|]. rewrite steps_of_cons. lia.
Qed.

Lemma step_length l p p' :
  step l p = Some p' -> length (callers p') = length (callers p).
Proof.
  intros Hstep. unfold step, set_caller in Hstep.
  repeat case_match; simplify_eq; cbn [callers]; apply length_insert.
Qed.

Lemma run_length schedule : forall p p',
  run schedule p = Some p' -> length (callers p') = length (callers p).
Proof.
  induction schedule as [|l schedule IH]; intros p p' Hrun; cbn in Hrun.
  - now simplify_eq.
  - destruct (step l p) as [p1|] eqn:Hstep; [|discriminate].
    rewrite (IH _ _ Hrun). exact (step_length _ _ _ Hstep).
Qed.

End CallsProperties.

(** X10 — the signer that [create] resolves with holds the normalized
    string of the path [create] was called with, and so does every call
    that is under way; a call whose path does not parse never gets past
    the parser: it is rejected with the error of the parser and nothing
    else ever happens to it. *)
Theorem create_keeps_normalized_path
    (paths : list string) (schedule : list Session.Label) (p : Session.Process)
    (c : nat) (argument : string) (k : Session.Caller) :
  Session.run schedule (Session.init paths) = Some p ->
  paths !! c = Some argument ->
  Session.callers p !! c = Some k ->
  match Common.parseBip32Path argument with
  | Throw e => k = Session.NotCalled argument \/ k = Session.Rejected e
  | Return parsed =>
      match k with
      | Session.NotCalled path => path = argument
      | Session.AwaitOpen path _ | Session.AwaitConfig path _
      | Session.AwaitSleep path _ => path = Common.normalized parsed
      | Session.Resolved _ signer =>
          Session.signer_path signer = Common.normalized parsed
      | Session.Rejected _ => True
      end
  end.
Proof.
  intros Hrun Hargument Hk.
  destruct (run_tracks paths schedule _ _ (init_tracks paths) Hrun c k Hk)
    as (argument' & Hargument' & Hkept).
  assert (argument' = argument) as -> by congruence.
  destruct (Common.parseBip32Path argument) as [parsed|e];
    destruct k; cbn in Hkept; try exact I.
  all: try (destruct Hkept as (parsed' & [= <-] & Hpath); exact Hpath).
  all: try (destruct Hkept as (parsed' & [=] & _)).
  all: try (left; congruence).
  all: try exact Hkept.
  destruct Hkept as [[= <-] | (parsed' & [=])]. right. reflexivity.
Qed.

Lemma create_keeps_normalized_path_witness :
  Session.signer_path (Session.mkSigner (Some 0%nat) "44'/60'/0'/0/0") =
  Common.normalized
    (Common.mkBip32Path "44'/60'/0'/0/0" [0x8000002c; 0x8000003c; 0x80000000; 0; 0]).
Proof.
  exact (create_keeps_normalized_path ["m/44'/60'/0'/0/0"]
           [Session.Call 0; Session.OpenSettled 0 None; Session.ConfigSettled 0 None]
           _ 0 "m/44'/60'/0'/0/0" _ eq_refl eq_refl eq_refl).
Defined.

(** X11 — a call of [create] cannot go on for ever: whatever the other
    calls do, it takes at most 1201 steps, its start and the settling of
    what it awaits; a call that has taken them all has settled. *)
Theorem create_settles_within_budget
    (paths : list string) (schedule : list Session.Label) (p : Session.Process)
    (c : nat) (k : Session.Caller) :
  Session.run schedule (Session.init paths) = Some p ->
  Session.callers p !! c = Some k ->
  (Calls.steps_of c schedule + Calls.budget k <= 1201)%nat /\
  (Calls.steps_of c schedule = 1201%nat -> Calls.settled k = true).
Proof.
  intros Hrun Hk.
  pose proof (reachable_Inv paths schedule p Hrun) as HInv.
  destruct (lookup_lt_is_Some_2 (Session.callers (Session.init paths)) c) as [k0 Hk0].
  { rewrite <- (run_length schedule _ _ Hrun). eapply lookup_lt_Some, Hk. }
  destruct (run_budget paths schedule _ _ c k0 (init_Inv paths) Hrun Hk0)
    as (k' & Hk' & Hle).
  assert (k' = k) as -> by congruence.
  assert (Hstart : Calls.budget k0 = 1201%nat).
  { unfold Session.init in Hk0. cbn in Hk0. rewrite list_lookup_fmap in Hk0.
    apply fmap_Some in Hk0 as (path & _ & ->). reflexivity. }
  rewrite Hstart in Hle. split; [exact Hle|].
  intros Hall. destruct k; cbn [Calls.budget Calls.settled] in *; try reflexivity; try lia.
  pose proof (Session.inv_sleep _ _ HInv _ _ _ Hk). lia.
Qed.

Lemma create_settles_within_budget_witness :
  (Calls.steps_of 1 [Session.Call 0; Session.Call 1; Session.Timer 1; Session.Timer 1] +
   Calls.budget (Session.AwaitSleep "44'/60'/0'/0/1" 2) <= 1201)%nat.
Proof.
  apply (create_settles_within_budget ["m/44'/60'/0'/0/0"; "m/44'/60'/0'/0/1"]
           [Session.Call 0; Session.Call 1; Session.Timer 1; Session.Timer 1]
           _ 1 (Session.AwaitSleep "44'/60'/0'/0/1" 2) eq_refl eq_refl).
Defined.

(** ** [create] of the earlier signers *)

Section EarlierSessionProperties.
Import Session.
#[local] Set Warnings "-clear-no-such-hyp".

Lemma ran_insert (l : list Caller) c k0 k' :
  l !! c = Some k0 -> has_run k' = true ->
  exists c0 k, <[c := k']> l !! c0 = Some k /\ has_run k = true.
Proof.
  intros Hc Hk'. exists c, k'. split; [|exact Hk'].
  apply list_lookup_insert_eq. eapply lookup_lt_Some, Hc.
Qed.

Lemma earlier_init_Inv paths : EarlierSession.Inv paths (init paths).
Proof.
  unfold EarlierSession.Inv, init. cbn. repeat split; try discriminate.
  - intros c k Hk. rewrite list_lookup_fmap in Hk.
    apply fmap_Some in Hk as (path & _ & ->). reflexivity.
  - intros c k path Hk Hpath. rewrite list_lookup_fmap in Hk.
    apply fmap_Some in Hk as (path' & Hpath' & ->). cbn in Hpath. congruence.
Qed.

Lemma earlier_step_Inv paths l p p' :
  EarlierSession.Inv paths p -> EarlierSession.step l p = Some p' -> EarlierSession.Inv paths p'.
Proof.
  intros (Hidle & Hopen & Hpaths) Hstep.
  unfold EarlierSession.step, set_caller in Hstep.
  destruct (createEthApp p) eqn:Hflag;
    [destruct (Hopen eq_refl) as [Hopened _] | destruct (Hidle eq_refl) as [Hopened Hnone]];
    clear Hidle Hopen.
  all: repeat case_match; simplify_eq.
  all: try match goal with
         | H : callers _ !! _ = Some ?k |- _ =>
             specialize (Hnone _ _ H); discriminate Hnone
         end.
  all: unfold EarlierSession.Inv; cbn [createEthApp opened callers]; rewrite ?Hflag.
  all: (split; [intros [=]|]); (split; [intros _; split; [lia|]|]).
  all: try (eapply ran_insert; [eassumption | reflexivity]).
  all: intros ? ? ? Hk0 Hpath0.
  all: apply list_lookup_insert_Some in Hk0 as [(? & ? & ?) | (? & ?)]; simplify_eq.
  all: try solve [eauto].
  all: cbn in Hpath0; simplify_eq.
  all: eapply Hpaths; [eassumption | reflexivity].
Qed.

Lemma earlier_run_Inv paths schedule : forall p p',
  EarlierSession.Inv paths p -> EarlierSession.run schedule p = Some p' -> EarlierSession.Inv paths p'.
Proof.
  induction schedule as [|l schedule IH]; intros p p' HInv Hrun; cbn in Hrun.
  - now simplify_eq.
  - destruct (EarlierSession.step l p) as [p1|] eqn:Hstep; [|discriminate].
    eapply IH; [|exact Hrun]. eapply earlier_step_Inv; eassumption.
Qed.

End EarlierSessionProperties.

(** X12 — in the earlier signers, which do not parse the path, every call
    of [create] reaches the flag: the transport is opened at most once, and
    exactly once as soon as any call has run, whatever its path; and every
    call, and the signer it resolves with, holds the path as it was given. *)
Theorem earlier_create_opens_once
    (paths : list string) (schedule : list Session.Label) (p : Session.Process) :
  EarlierSession.run schedule (Session.init paths) = Some p ->
  (Session.opened p <= 1)%nat /\
  (Session.opened p = 1%nat <->
   exists c k, Session.callers p !! c = Some k /\ Session.has_run k = true) /\
  (forall c k path,
     Session.callers p !! c = Some k ->
     EarlierSession.path_of k = Some path -> paths !! c = Some path).
Proof.
  intros Hrun.
  destruct (earlier_run_Inv paths schedule _ _ (earlier_init_Inv paths) Hrun)
    as (Hidle & Hopen & Hpaths).
  destruct (Session.createEthApp p).
  - destruct (Hopen eq_refl) as [Hopened Hran].
    repeat split; try assumption; try lia. intros _. exact Hran.
  - destruct (Hidle eq_refl) as [Hopened Hnone].
    repeat split; try assumption; try lia.
    intros (c & k & Hk & Hran). rewrite (Hnone _ _ Hk) in Hran. discriminate.
Qed.

Lemma earlier_create_opens_once_witness :
  (1 <= 1)%nat /\
  (1%nat = 1%nat <->
   exists c k,
     [Session.AwaitOpen "m/44'/60'/0'/0/0" 0; Session.AwaitSleep "not a path" 0] !! c =
       Some k /\ Session.has_run k = true) /\
  (forall c k path,
     [Session.AwaitOpen "m/44'/60'/0'/0/0" 0; Session.AwaitSleep "not a path" 0] !! c =
       Some k ->
     EarlierSession.path_of k = Some path ->
     ["m/44'/60'/0'/0/0"; "not a path"] !! c = Some path).
Proof.
  exact (earlier_create_opens_once ["m/44'/60'/0'/0/0"; "not a path"]
           [Session.Call 0; Session.Call 1] _ eq_refl).
Defined.

(** ** [create]: what is never undone *)

Section SessionMonotone.
Import Session Calls.
#[local] Set Warnings "-clear-no-such-hyp".

Lemma step_keeps paths l p p' :
  Inv paths p -> step l p = Some p' ->
  (createEthApp p = true -> createEthApp p' = true) /\
  (forall h, app p = Some h -> app p' = Some h) /\
  (opened p <= opened p')%nat /\
  (forall h, In h (checked p) -> In h (checked p')) /\
  (forall c k, callers p !! c = Some k -> settled k = true -> callers p' !! c = Some k).
Proof.
  intros HInv Hstep.
  split; [|split; [|split; [|split]]].
  - intros Hflag. unfold step, set_caller in Hstep.
    repeat case_match; simplify_eq; cbn; congruence.
  - intros h Hh. exact (step_app_stable paths l p p' h HInv Hstep Hh).
  - destruct (step_frame l p p' Hstep) as [_ [-> | (_ & -> & _)]]; lia.
  - intros h Hh. unfold step, set_caller in Hstep.
    repeat case_match; simplify_eq; cbn; auto.
  - intros c k Hk Hsettled.
    destruct (decide (c = label_of l)) as [->|Hne].
    + unfold step in Hstep. destruct l; cbn [label_of] in Hk; rewrite Hk in Hstep;
        destruct k; try discriminate Hsettled; discriminate Hstep.
    + destruct (step_frame l p p' Hstep) as [Hframe _]. now rewrite Hframe.
Qed.

Lemma run_keeps paths later : forall p p',
  Inv paths p -> run later p = Some p' ->
  (createEthApp p = true -> createEthApp p' = true) /\
  (forall h, app p = Some h -> app p' = Some h) /\
  (opened p <= opened p')%nat /\
  (forall h, In h (checked p) -> In h (checked p')) /\
  (forall c k, callers p !! c = Some k -> settled k = true -> callers p' !! c = Some k).
Proof.
  induction later as [|l later IH]; intros p p' HInv Hrun; cbn in Hrun.
  - simplify_eq. repeat split; auto.
  - destruct (step l p) as [p1|] eqn:Hstep; [|discriminate].
    destruct (step_keeps paths l p p1 HInv Hstep) as (H1 & H2 & H3 & H4 & H5).
    destruct (IH p1 p' (step_Inv paths l p p1 HInv Hstep) Hrun) as (G1 & G2 & G3 & G4 & G5).
    repeat split; eauto. lia.
Qed.

End SessionMonotone.

(** X13 — nothing [create] has done is undone by later calls: the flag,
    once set, stays set; the handle, once published, is never replaced or
    cleared; the number of opened transports and the handles that answered
    the configuration query only grow; and a call that has settled, with a
    signer or an error, is never touched again. *)
Theorem create_never_undoes
    (paths : list string) (before later : list Session.Label)
    (p p' : Session.Process) :
  Session.run before (Session.init paths) = Some p ->
  Session.run later p = Some p' ->
  (Session.createEthApp p = true -> Session.createEthApp p' = true) /\
  (forall h, Session.app p = Some h -> Session.app p' = Some h) /\
  (Session.opened p <= Session.opened p')%nat /\
  (forall h, In h (Session.checked p) -> In h (Session.checked p')) /\
  (forall c k, Session.callers p !! c = Some k -> Calls.settled k = true ->
               Session.callers p' !! c = Some k).
Proof.
  intros Hbefore Hlater.
  exact (run_keeps paths later p p' (reachable_Inv paths before p Hbefore) Hlater).
Qed.

Lemma create_never_undoes_witness :
  Session.callers
    {| Session.createEthApp := true; Session.app := Some 0%nat; Session.opened := 1;
       Session.checked := [0%nat];
       Session.callers :=
         [Session.Resolved Session.Initialized
            (Session.mkSigner (Some 0%nat) "44'/60'/0'/0/0");
          Session.Resolved Session.Reused
            (Session.mkSigner (Some 0%nat) "44'/60'/0'/0/1")] |} !! 0%nat =
  Some (Session.Resolved Session.Initialized
          (Session.mkSigner (Some 0%nat) "44'/60'/0'/0/0")).
Proof.
  apply (create_never_undoes ["m/44'/60'/0'/0/0"; "m/44'/60'/0'/0/1"]
           [Session.Call 0; Session.OpenSettled 0 None; Session.ConfigSettled 0 None]
           [Session.Call 1] _ _ eq_refl eq_refl); reflexivity.
Defined.

(** ** [retry]: where a value comes from *)

(** A value that [retry] returns is the value some attempt returned. *)
Lemma retry_loop_returns_attempt {World App T : Type} (sleep : Z -> World -> World)
    (app : World -> App) (hook : option (JsError -> result unit))
    (operation : App -> World -> result T * World) (res : T) n : forall w,
  Common.completion (Common.retry_loop sleep app hook operation n w) = Return res ->
  exists w', fst (operation (app w') w') = Return res.
Proof.
  induction n as [|n IH]; intros w; cbn [Common.retry_loop]; [discriminate|].
  destruct (operation (app w) w) as [[res'|e] w1] eqn:Hop.
  - cbn. intros [= ->]. exists w. now rewrite Hop.
  - destruct (Common.run_hook hook e); [|discriminate].
    destruct (negb (Common.is_TransportLocked e)); [discriminate|].
    cbn [Common.after_pause Common.completion]. apply IH.
Qed.

(** ** [signTypedData]: where a signature comes from *)

Section SignatureOrigin.
Context {Env Domain Types Value Payload : Type}.
Variable elapse : Z -> Env -> Env.
Variable resolveNames : Domain -> Types -> Value -> Env -> result (Domain * Value) * Env.
Variable getPayload : Domain -> Types -> Value -> result Payload.
Variable hashDomain : Domain -> result string.
Variable hash : Types -> Value -> result string.
Variable serialized : LedgerSignature -> result string.
Local Close Scope string_scope.

Local Abbreviation Ev := (@Event Domain Types Value Payload).
Local Abbreviation W := (@World Env Domain Types Value Payload).

Lemma LedgerSigner_retry_returns_call {T : Type} (app : @Eth Env Payload) (ev : Ev)
    (f : @Eth Env Payload -> Env -> result T * Env) (res : T) (w w1 : W) :
  LedgerSigner_retry elapse app (fun eth => external ev (f eth)) w = (Return res, w1) ->
  exists env0 env1, f app env0 = (Return res, env1).
Proof.
  unfold LedgerSigner_retry, Common.retry. cbv zeta. intros Hrun.
  apply (f_equal fst) in Hrun. cbv beta iota delta [fst] in Hrun.
  apply retry_loop_returns_attempt in Hrun as [w' Hw'].
  unfold external in Hw'. destruct (f app (env w')) as [r env1] eqn:Hcall.
  cbn [fst] in Hw'. subst r. eauto.
Qed.

(** X14 — a string that [signTypedData] returns is the serialization of a
    signature the device gave, in answer to the typed-data request or to
    the request with the two hashes, with 0x put in front of its [r] and
    its [s] and with its [v] as it is: no signature comes from anywhere
    else. *)
Theorem signTypedData_returns_device_signature
    (app : @Eth Env Payload) (this : @LedgerSigner Env Payload)
    (domain : Domain) (types : Types) (value : Value) (w : W) (signed : string) :
  fst (signTypedData elapse resolveNames getPayload hashDomain hash serialized app
         this domain types value w) = Return signed ->
  exists sig,
    serialized {| sig_r := String.append "0x" (sig_r sig);
                  sig_s := String.append "0x" (sig_s sig);
                  sig_v := sig_v sig |} = Return signed /\
    ((exists payload env0 env1,
         Eth_signEIP712Message app (path this) payload env0 = (Return sig, env1)) \/
     (exists domainHash valueHash env0 env1,
         Eth_signEIP712HashedMessage app (path this) domainHash valueHash env0 =
         (Return sig, env1))).
Proof.
  unfold signTypedData, signTypedData_with, mbind, try_catch, library, throw.
  destruct (external _ _ w) as [[populated|e] w1]; [|discriminate].
  destruct (getPayload _ _ _) as [payload|e]; [|discriminate].
  destruct (LedgerSigner_retry elapse app _ (record _ w1)) as [[sig|e] w2] eqn:Hdirect.
  - cbn [fst]. intros Hsigned. exists sig. split; [exact Hsigned|]. left.
    apply LedgerSigner_retry_returns_call in Hdirect as (env0 & env1 & Hcall). eauto.
  - destruct (negb (statusCode_is e 27904)); [discriminate|].
    destruct (hashDomain domain) as [domainHash|e1]; [|discriminate].
    destruct (hash types value) as [valueHash|e1]; [|discriminate].
    destruct (LedgerSigner_retry elapse app _ (record _ (record _ w2)))
      as [[sig|e1] w3] eqn:Hfallback; [|discriminate].
    cbn [fst]. intros Hsigned. exists sig. split; [exact Hsigned|]. right.
    apply LedgerSigner_retry_returns_call in Hfallback as (env0 & env1 & Hcall). eauto.
Qed.

End SignatureOrigin.

Lemma signTypedData_returns_device_signature_witness :
  exists sig,
    Wallet.serialized {| sig_r := String.append "0x" (sig_r sig);
                         sig_s := String.append "0x" (sig_s sig);
                         sig_v := sig_v sig |} = Return "0xaa0xbb" /\
    ((exists payload env0 env1,
         Eth_signEIP712Message Wallet.old_firmware "44'/60'/0'/0/0" payload env0 =
         (Return sig, env1)) \/
     (exists domainHash valueHash env0 env1,
         Eth_signEIP712HashedMessage Wallet.old_firmware "44'/60'/0'/0/0"
           domainHash valueHash env0 = (Return sig, env1))).
Proof.
  apply (signTypedData_returns_device_signature Wallet.no_elapse Wallet.resolveNames
           Wallet.getPayload Wallet.hashDomain Wallet.hash Wallet.serialized
           Wallet.old_firmware (Wallet.signer Wallet.old_firmware)
           "alice.eth" "Mail" "hello" Wallet.start "0xaa0xbb").
  vm_compute. reflexivity.
Defined.

(** ** [signTransaction] of the ethers-v5 signer *)

(** X15 — the transaction that is signed takes its fee fields from the
    type of the request alone: a gas price only for type 0, the two
    EIP-1559 fees only for type 2, an access list only for types 1 and 2,
    and never a gas price together with an EIP-1559 fee; a request with no
    type loses all of them, whatever it carries. Its nonce is left out when
    the request has none or has one that is falsy, such as the number 0. *)
Theorem baseTx_fee_fields {Data Amount AccessList Nonce : Type}
    (truthy : Nonce -> bool) (toNumber : Nonce -> result Z)
    (tx : @EthersV5.TransactionRequest Data Amount AccessList Nonce)
    (base : @EthersV5.UnsignedTransaction Data Amount AccessList) :
  EthersV5.baseTx truthy toNumber tx = Return base ->
  (is_Some (EthersV5.base_gasPrice base) ->
   EthersV5.tx_type tx = Some 0 /\ EthersV5.base_gasPrice base = EthersV5.tx_gasPrice tx /\
   EthersV5.base_maxFeePerGas base = None /\ EthersV5.base_maxPriorityFeePerGas base = None /\
   EthersV5.base_accessList base = None) /\
  (is_Some (EthersV5.base_maxFeePerGas base) \/ is_Some (EthersV5.base_maxPriorityFeePerGas base) ->
   EthersV5.tx_type tx = Some 2 /\ EthersV5.base_gasPrice base = None) /\
  (is_Some (EthersV5.base_accessList base) -> EthersV5.tx_type tx = Some 1 \/ EthersV5.tx_type tx = Some 2) /\
  (EthersV5.tx_type tx = None ->
   EthersV5.base_gasPrice base = None /\ EthersV5.base_maxFeePerGas base = None /\
   EthersV5.base_maxPriorityFeePerGas base = None /\ EthersV5.base_accessList base = None) /\
  (EthersV5.base_nonce base = None <->
   EthersV5.tx_nonce tx = None \/ exists n, EthersV5.tx_nonce tx = Some n /\ truthy n = false).
Proof.
  unfold EthersV5.baseTx, EthersV5.type_is. intros Hbase.
  assert (Hnonce : exists nonce,
             match EthersV5.tx_nonce tx with
             | Some n => if truthy n then bind (toNumber n) (fun k => Return (Some k))
                         else Return None
             | None => Return None
             end = Return nonce /\ EthersV5.base_nonce base = nonce /\
             (nonce = None <->
              EthersV5.tx_nonce tx = None \/ exists n, EthersV5.tx_nonce tx = Some n /\ truthy n = false)).
  { destruct (EthersV5.tx_nonce tx) as [n|] eqn:Hn.
    - destruct (truthy n) eqn:Htruthy.
      + destruct (toNumber n) as [k|e]; cbn [bind] in Hbase; [|discriminate].
        injection Hbase as <-. eexists. split; [reflexivity|]. split; [reflexivity|].
        split; [discriminate|]. intros [[=] | (n' & [= <-] & Hfalse)]. congruence.
      + cbn [bind] in Hbase. injection Hbase as <-. eexists.
        split; [reflexivity|]. split; [reflexivity|]. split; eauto.
    - cbn [bind] in Hbase. injection Hbase as <-. eexists.
      split; [reflexivity|]. split; [reflexivity|]. split; eauto. }
  destruct Hnonce as (nonce & Heq & Hbn & Hiff). rewrite Heq in Hbase. cbn [bind] in Hbase.
  injection Hbase as <-. cbn.
  assert (Hnone : forall A : Type, ~ is_Some (@None A)) by (intros A [? [=]]).
  clear Hbn Heq.
  split; [|split; [|split; [|split; [|exact Hiff]]]].
  all: destruct (EthersV5.tx_type tx) as [t|]; cbn;
    [destruct (Z.eqb_spec t 0) as [->|H0]; [|destruct (Z.eqb_spec t 2) as [->|H2];
       [|destruct (Z.eqb_spec t 1) as [->|H1]]]; cbn|].
  all: intros H; try discriminate H; try (destruct H as [H|H]);
    try (exfalso; exact (Hnone _ H)); repeat split; tauto.
Qed.

Section TransactionProperties.
Import EthersV5.
Context {Env App Data Amount AccessList Nonce Request : Type}.
Variable truthy : Nonce -> bool.
Variable toNumber : Nonce -> result Z.
Variable hexToNumber : string -> result Z.
Variable resolveProperties :
  Request -> Env -> result (@TransactionRequest Data Amount AccessList Nonce) * Env.
Variable serializeTransaction :
  @UnsignedTransaction Data Amount AccessList -> option SignatureLike -> result string.
Variable clearSignTransaction :
  App -> string -> string -> ResolutionConfig -> Env -> result RawSignature * Env.
Variable elapse : Z -> Env -> Env.
Variable app : App.

(** X16 — a signed transaction that [signTransaction] returns is the
    serialization of the base transaction of the resolved request together
    with a signature the device gave for the unsigned serialization of that
    same base transaction, handed over without its first two characters;
    the [v] of the signature is the number its hex string stands for, and
    its [r] and [s] have 0x put in front. *)
Theorem signTransaction_signs_what_it_serializes
    (path : string) (transaction : Request) (env0 : Env) (signed : string) :
  fst (signTransaction truthy toNumber hexToNumber resolveProperties serializeTransaction
         clearSignTransaction elapse app path transaction env0) = Return signed ->
  exists tx env1 base raw sig v before after,
    resolveProperties transaction env0 = (Return tx, env1) /\
    baseTx truthy toNumber tx = Return base /\
    serializeTransaction base None = Return raw /\
    clearSignTransaction app path (substring2 raw) resolutionConfig before =
      (Return sig, after) /\
    hexToNumber (String.append "0x" (raw_v sig)) = Return v /\
    serializeTransaction base
      (Some {| like_v := v;
               like_r := String.append "0x" (raw_r sig);
               like_s := String.append "0x" (raw_s sig) |}) = Return signed.
Proof.
  unfold signTransaction, Common.retry.
  destruct (resolveProperties transaction env0) as [[tx|e] env1] eqn:Hresolved;
    [|discriminate].
  destruct (baseTx truthy toNumber tx) as [base|e] eqn:Hbase; [|discriminate].
  destruct (serializeTransaction base None) as [raw|e] eqn:Hraw; [|discriminate].
  cbv zeta.
  destruct (Common.completion _) as [sig|e] eqn:Hrun; [|discriminate].
  destruct (hexToNumber _) as [v|e] eqn:Hv; [|discriminate].
  cbn [fst]. intros Hsigned.
  apply retry_loop_returns_attempt in Hrun as [before Hcall].
  destruct (clearSignTransaction app path (substring2 raw) resolutionConfig before)
    as [r after] eqn:Hdevice.
  cbn [fst] in Hcall. subst r.
  exists tx, env1, base, raw, sig, v, before, after. repeat split; assumption.
Qed.

End TransactionProperties.

Lemma baseTx_fee_fields_witness :
  let base : @EthersV5.UnsignedTransaction string Z (list string) :=
    {| EthersV5.base_chainId := Some 1; EthersV5.base_data := None;
       EthersV5.base_gasLimit := Some 21000; EthersV5.base_nonce := None;
       EthersV5.base_to := Some "0x52908400098527886e0f7030069857d2e4169ee7";
       EthersV5.base_value := Some 1; EthersV5.base_type := None;
       EthersV5.base_gasPrice := None; EthersV5.base_accessList := None;
       EthersV5.base_maxFeePerGas := None;
       EthersV5.base_maxPriorityFeePerGas := None |} in
  EthersV5.baseTx Desk.truthy Desk.toNumber Desk.untyped_first_transfer = Return base /\
  (EthersV5.base_nonce base = None <->
   EthersV5.tx_nonce Desk.untyped_first_transfer = None \/
   exists n, EthersV5.tx_nonce Desk.untyped_first_transfer = Some n /\
             Desk.truthy n = false).
Proof.
  intros base. split; [reflexivity|].
  apply (baseTx_fee_fields Desk.truthy Desk.toNumber Desk.untyped_first_transfer base).
  reflexivity.
Defined.

Lemma signTransaction_signs_what_it_serializes_witness :
  exists tx env1 base raw sig v before after,
    Desk.resolveProperties Desk.transfer 0%nat = (Return tx, env1) /\
    EthersV5.baseTx Desk.truthy Desk.toNumber tx = Return base /\
    Desk.serializeTransaction base None = Return raw /\
    Desk.clearSignTransaction tt "44'/60'/0'/0/0" (substring2 raw)
      EthersV5.resolutionConfig before = (Return sig, after) /\
    Desk.hexToNumber (String.append "0x" (EthersV5.raw_v sig)) = Return v /\
    Desk.serializeTransaction base
      (Some {| EthersV5.like_v := v;
               EthersV5.like_r := String.append "0x" (EthersV5.raw_r sig);
               EthersV5.like_s := String.append "0x" (EthersV5.raw_s sig) |}) =
    Return "0xf80xaa0xbb".
Proof.
  apply (signTransaction_signs_what_it_serializes Desk.truthy Desk.toNumber
           Desk.hexToNumber Desk.resolveProperties Desk.serializeTransaction
           Desk.clearSignTransaction (fun (_ : Z) (calls : nat) => calls) tt
           "44'/60'/0'/0/0" Desk.transfer 0%nat "0xf80xaa0xbb").
  vm_compute. reflexivity.
Defined.

(** ** [create]: a path without the root marker *)

Lemma test_starts_with_m_false path :
  (forall rest, path <> String "m" rest) -> Common.test_starts_with_m path = false.
Proof.
  intros Hroot. destruct path as [|c rest]; [reflexivity|].
  destruct (Ascii.eqb_spec c "m") as [->|Hc]; [now destruct (Hroot rest)|].
  unfold Common.test_starts_with_m.
  destruct c as [[] [] [] [] [] [] [] []]; try reflexivity. now destruct Hc.
Qed.

(** X17 — the current [create] turns away every path that does not begin
    with the root marker [m], the format [44'/501'/0'/0'] that the Solana
    signer documents among them: the call is rejected with the error of the
    parser and nothing else changes, no transport is opened. The earlier
    [create] takes the same call on with the path as it is. *)
Theorem create_rejects_path_without_root
    (p : Session.Process) (c : nat) (path : string) :
  Session.callers p !! c = Some (Session.NotCalled path) ->
  (forall rest, path <> String "m" rest) ->
  Session.step (Session.Call c) p =
    Some (Session.set_caller c (Session.Rejected (new_Error MsgPathMustStartWithM)) p) /\
  exists p' k,
    EarlierSession.step (Session.Call c) p = Some p' /\
    Session.callers p' !! c = Some k /\
    Session.has_run k = true /\
    EarlierSession.path_of k = Some path.
Proof.
  intros Hc Hroot. pose proof (lookup_lt_Some _ _ _ Hc) as Hlen. split.
  - unfold Session.step, Common.parseBip32Path. rewrite Hc.
    now rewrite (test_starts_with_m_false path Hroot).
  - unfold EarlierSession.step, Session.set_caller. rewrite Hc.
    destruct (Session.createEthApp p); cbn [negb]; [destruct (Session.app p)|].
    all: do 2 eexists; (split; [reflexivity|]); cbn [Session.callers];
      rewrite list_lookup_insert_eq by exact Hlen; repeat split.
Qed.

Lemma create_rejects_path_without_root_witness :
  Session.step (Session.Call 0) (Session.init ["44'/501'/0'/0'"]) =
  Some (Session.set_caller 0 (Session.Rejected (new_Error MsgPathMustStartWithM))
          (Session.init ["44'/501'/0'/0'"])).
Proof.
  apply (create_rejects_path_without_root (Session.init ["44'/501'/0'/0'"]) 0
           "44'/501'/0'/0'"); [reflexivity | discriminate].
Defined.

(** ** The two versions of [signTypedData] *)

Section TypedDataVersions.
Context {Env Domain Types Value Payload : Type}.
Variable elapse : Z -> Env -> Env.
Variable resolveNames : Domain -> Types -> Value -> Env -> result (Domain * Value) * Env.
Variable getPayload : Domain -> Types -> Value -> result Payload.
Variable hashDomain : Domain -> result string.
Variable hash : Types -> Value -> result string.
Variable serialized : LedgerSignature -> result string.
Local Close Scope string_scope.

Local Abbreviation Ev := (@Event Domain Types Value Payload).
Local Abbreviation W := (@World Env Domain Types Value Payload).

(** The hook of the ethers signers does nothing to a run in which no
    error has status 27404. *)
Lemma retry_loop_hook_idle {App T : Type} (app : W -> App)
    (operation : App -> W -> result T * W) :
  (forall w0 e, fst (operation (app w0) w0) = Throw e -> statusCode_is e 27404 = false) ->
  forall n w,
    Common.retry_loop (sleep elapse) app (Some errorHook) operation n w =
    Common.retry_loop (sleep elapse) app None operation n w.
Proof.
  intros Hcode. induction n as [|n IH]; intros w; [reflexivity|].
  cbn [Common.retry_loop Common.run_hook].
  pose proof (Hcode w) as Hop.
  destruct (operation (app w) w) as [[res|e] w1]; [reflexivity|].
  cbn [fst] in Hop. unfold errorHook at 1. rewrite (Hop e eq_refl).
  destruct (negb (Common.is_TransportLocked e)); [reflexivity|].
  now rewrite IH.
Qed.

Lemma _retry_LedgerSigner_retry {T : Type} (this : @LedgerSigner Env Payload) (ev : Ev)
    (f : @Eth Env Payload -> Env -> result T * Env) (w : W) :
  (forall env0 e env1, f (ethApp this) env0 = (Throw e, env1) ->
                       statusCode_is e 27404 = false) ->
  _retry elapse this (fun eth => external ev (f eth)) w =
  LedgerSigner_retry elapse (ethApp this) (fun eth => external ev (f eth)) w.
Proof.
  intros Hcode. unfold _retry, LedgerSigner_retry, Common.retry. cbv zeta.
  rewrite (_retry_loop_retry_loop elapse this _ 1200 w).
  rewrite (retry_loop_hook_idle (fun _ : W => ethApp this)
             (fun eth => external ev (f eth))); [reflexivity|].
  intros w0 e He. unfold external in He.
  destruct (f (ethApp this) (env w0)) as [r env1] eqn:Hcall.
  cbn [fst] in He. subst r. exact (Hcode _ _ _ Hcall).
Qed.

(** X18 — the two versions of [signTypedData] differ only in what they do
    with an error of status 27404: on a device whose two signing calls
    never fail with that status, the earlier version, which retries with
    [this._retry], and the current one, which retries with the hooked
    [retry] on the same application object, complete alike and leave the
    same world. *)
Theorem signTypedData_legacy_agrees (this : @LedgerSigner Env Payload)
    (domain : Domain) (types : Types) (value : Value) (w : W) :
  (forall payload env0 e env1,
      Eth_signEIP712Message (ethApp this) (path this) payload env0 = (Throw e, env1) ->
      statusCode_is e 27404 = false) ->
  (forall domainHash valueHash env0 e env1,
      Eth_signEIP712HashedMessage (ethApp this) (path this) domainHash valueHash env0 =
        (Throw e, env1) ->
      statusCode_is e 27404 = false) ->
  signTypedData_legacy elapse resolveNames getPayload hashDomain hash serialized
    this domain types value w =
  signTypedData elapse resolveNames getPayload hashDomain hash serialized
    (ethApp this) this domain types value w.
Proof.
  intros Hdirect Hhashed.
  unfold signTypedData_legacy, signTypedData, signTypedData_with, mbind, try_catch,
    library, throw.
  destruct (external _ _ w) as [[populated|e] w1]; [|reflexivity].
  destruct (getPayload _ _ _) as [payload|e]; [|reflexivity].
  rewrite (_retry_LedgerSigner_retry this _
             (fun eth => Eth_signEIP712Message eth (path this) payload))
    by (intros env0 e env1; apply Hdirect).
  destruct (LedgerSigner_retry elapse (ethApp this) _ _) as [[sig|e] w2]; [reflexivity|].
  destruct (negb (statusCode_is e 27904)); [reflexivity|].
  destruct (hashDomain domain) as [domainHash|e1]; [|reflexivity].
  destruct (hash types value) as [valueHash|e1]; [|reflexivity].
  rewrite (_retry_LedgerSigner_retry this _
             (fun eth => Eth_signEIP712HashedMessage eth (path this)
                           (substring2 domainHash) (substring2 valueHash)))
    by (intros env0 e2 env1; apply Hhashed).
  reflexivity.
Qed.

End TypedDataVersions.

Lemma signTypedData_legacy_agrees_witness :
  signTypedData_legacy Wallet.no_elapse Wallet.resolveNames Wallet.getPayload
    Wallet.hashDomain Wallet.hash Wallet.serialized
    (Wallet.signer Wallet.old_firmware) "alice.eth" "Mail" "hello" Wallet.start =
  signTypedData Wallet.no_elapse Wallet.resolveNames Wallet.getPayload
    Wallet.hashDomain Wallet.hash Wallet.serialized
    Wallet.old_firmware (Wallet.signer Wallet.old_firmware)
    "alice.eth" "Mail" "hello" Wallet.start.
Proof.
  apply (signTypedData_legacy_agrees Wallet.no_elapse Wallet.resolveNames
           Wallet.getPayload Wallet.hashDomain Wallet.hash Wallet.serialized
           (Wallet.signer Wallet.old_firmware) "alice.eth" "Mail" "hello" Wallet.start).
  - intros payload env0 e env1 Hcall. cbn in Hcall.
    unfold Wallet.failing_first in Hcall.
    destruct (env0 <? 1)%nat; inversion Hcall. reflexivity.
  - intros domainHash valueHash env0 e env1 Hcall. cbn in Hcall. discriminate Hcall.
Defined.

Lemma Solana_getAddress_legacy_is_current_witness :
  Solana_getAddress_legacy (Domain := string) (Types := string) (Value := string)
    (Payload := string) Wallet.no_elapse
    {| solApp := Wallet.solana (fun _ => Return [1; 2; 3]);
       solana_path := "44'/501'/0'/0'" |} ∅ Wallet.start =
  Solana_getAddress Wallet.no_elapse (Wallet.solana (fun _ => Return [1; 2; 3]))
    "44'/501'/0'/0'" ∅ Wallet.start /\
  Solana_getAddress_legacy (Domain := string) (Types := string) (Value := string)
    (Payload := string) Wallet.no_elapse
    {| solApp := Wallet.solana (fun _ => Return [1; 2; 3]);
       solana_path := "constructor" |} ∅ Wallet.start =
  (Throw invalid_arg_type, ∅, Wallet.start).
Proof.
  split.
  - apply (Solana_getAddress_legacy_is_current Wallet.no_elapse
             {| solApp := Wallet.solana (fun _ => Return [1; 2; 3]);
                solana_path := "44'/501'/0'/0'" |} ∅ Wallet.start).
    reflexivity.
  - apply (Solana_getAddress_legacy_is_current Wallet.no_elapse
             {| solApp := Wallet.solana (fun _ => Return [1; 2; 3]);
                solana_path := "constructor" |} ∅ Wallet.start); reflexivity.
Defined.
